(** * swag: type declarations and their canonical names

    A shallow embedding of [types.go] (package [swag]): the record
    [TypeSpecDef] with its methods [Name], [TypeName], [FullPath], [Alias]
    and [SetSchemaName], followed by a model of the resolution engine the
    specification describes around it.

    Conventions.
    - Go strings are byte strings: [string] of the standard library.
      [strings.Map] decodes runes; the mapping of [TypeName] only touches
      the ASCII bytes '\', '/' and '.', which never occur inside a
      multi-byte UTF-8 sequence, so on valid UTF-8 it acts byte by byte.
    - A Go pointer that may be nil is an [option]; dereferencing nil
      panics, and a method that can panic returns [option] with [None]
      standing for the panic. *)

From Stdlib Require Import Ascii String List Bool Arith Lia.
From stdpp Require Import base option strings list gmap.

Local Open Scope string_scope.
Set Warnings "-register-all".

(** ** The fragment of [go/ast] that [types.go] reads *)

Module ast.

Module Ident.
Record t := mk { Name : string }.
End Ident.

Module Comment.
Record t := mk { Text : string }.
End Comment.

Module CommentGroup.
Record t := mk { List : list Comment.t }.
End CommentGroup.

Module File.
Record t := mk { Name : option Ident.t }.
End File.

Module FuncDecl.
Record t := mk { Name : option Ident.t }.
End FuncDecl.

Module TypeSpec.
Record t := mk { Name : option Ident.t; Comment : option CommentGroup.t }.
End TypeSpec.

(** [ast.Decl] is an interface; its dynamic type is one of three pointer
    types.  A non-nil interface may still hold a nil pointer, hence the
    [option] under [FuncDeclPtr]. *)
Inductive Decl :=
| FuncDeclPtr (p : option FuncDecl.t)
| GenDeclPtr
| BadDeclPtr.

End ast.

(** ** Helpers of the package that [types.go] calls *)

(** Modelled from the spec: [fullTypeName(names...)] is declared outside
    [types.go].  Section 4.1 writes qualified names as
    [unit.routine.ShortName], the parts joined with dots, and the test
    [TestParser_ParseDefinition] expects ["model.TestFuncDecl.Test"] from
    the parts [model], [TestFuncDecl], [Test]. *)
Definition fullTypeName (parts : list string) : string :=
  String.concat "." parts.

(** The [strings.Map] callback of [TypeName]. *)
Definition sanitizeRune (r : ascii) : ascii :=
  if (Ascii.eqb r "\" || Ascii.eqb r "/" || Ascii.eqb r ".")%bool
  then "_"%char else r.

Fixpoint strings_Map (mapping : ascii -> ascii) (s : string) : string :=
  match s with
  | EmptyString => EmptyString
  | String c rest => String (mapping c) (strings_Map mapping rest)
  end.

(** Whether the byte [c] occurs in [s]. *)
Fixpoint containsByte (c : ascii) (s : string) : bool :=
  match s with
  | EmptyString => false
  | String x rest => Ascii.eqb x c || containsByte c rest
  end.

(** [s[1:]]: panics on the empty string. *)
Definition slice_from_1 (s : string) : option string :=
  match s with
  | EmptyString => None
  | String _ rest => Some rest
  end.

(** Modelled from the spec: the element type of [TypeSpecDef.Enums] is
    declared outside [types.go].  An Enum Value (section 3) has a source
    identifier, a typed literal value and an optional inline comment, the
    empty string when there is none; its position in the list is its
    ordinal. *)
Module EnumValue.
Inductive literal :=
| LString (s : string)
| LInteger (z : Z)
| LBool (b : bool).

Record t := mk {
  key : string;
  Value : literal;
  Comment : string
}.
End EnumValue.

(** ** [TypeSpecDef] *)

Record TypeSpecDef := mkTypeSpecDef {
  File : option ast.File.t;
  TypeSpec : option ast.TypeSpec.t;
  Enums : list EnumValue.t;
  PkgPath : string;
  ParentSpec : option ast.Decl;
  SchemaName : string;
  NotUnique : bool
}.

Definition set_SchemaName (t : TypeSpecDef) (s : string) : TypeSpecDef :=
  mkTypeSpecDef (File t) (TypeSpec t) (Enums t) (PkgPath t) (ParentSpec t)
                s (NotUnique t).

Definition set_NotUnique (t : TypeSpecDef) (b : bool) : TypeSpecDef :=
  mkTypeSpecDef (File t) (TypeSpec t) (Enums t) (PkgPath t) (ParentSpec t)
                (SchemaName t) b.

(** [Name]: the name of the typeSpec, [""] when there is none. *)
Definition Name (t : TypeSpecDef) : string :=
  match TypeSpec t with
  | Some ts =>
      match ast.TypeSpec.Name ts with
      | Some id => ast.Ident.Name id
      | None => ""
      end
  | None => ""
  end.

(** [FullPath]: package path, a dot, the name. *)
Definition FullPath (t : TypeSpecDef) : string :=
  PkgPath t +:+ "." +:+ Name t.

Section Helpers.

(** Two helpers are declared in files of the package other than
    [types.go]; the methods below are parametric in them.
    [ignoreNameOverride] tells whether a declared name is exempt from
    qualification (its first byte is then dropped);  [nameOverride]
    reads the alias, if any, out of the comment group that trails a
    declaration, [""] meaning none. *)
Variable ignoreNameOverride : string -> bool.
Variable nameOverride : option ast.CommentGroup.t -> string.

(** The first element pushed on [names]. *)
Definition unitPart (t : TypeSpecDef) : option (list string) :=
  if NotUnique t then
    Some [strings_Map sanitizeRune (PkgPath t)]
  else
    match File t with
    | Some f => id ← ast.File.Name f; Some [ast.Ident.Name id]
    | None => Some []
    end.

(** The element pushed when [ParentSpec] is a non-nil [*ast.FuncDecl]. *)
Definition scopePart (t : TypeSpecDef) : option (list string) :=
  match ParentSpec t with
  | Some (ast.FuncDeclPtr (Some parentFun)) =>
      id ← ast.FuncDecl.Name parentFun; Some [ast.Ident.Name id]
  | _ => Some []
  end.

(** [TypeName]: the type name of the typeSpec. *)
Definition TypeName (t : TypeSpecDef) : option string :=
  ts ← TypeSpec t;
  id ← ast.TypeSpec.Name ts;
  let name := ast.Ident.Name id in
  if ignoreNameOverride name then slice_from_1 name
  else
    u ← unitPart t;
    p ← scopePart t;
    Some (fullTypeName (u ++ p ++ [name])%list).

Definition Alias (t : TypeSpecDef) : option string :=
  ts ← TypeSpec t;
  Some (nameOverride (ast.TypeSpec.Comment ts)).

Definition SetSchemaName (t : TypeSpecDef) : option TypeSpecDef :=
  alias ← Alias t;
  if negb (String.eqb alias "") then Some (set_SchemaName t alias)
  else
    n ← TypeName t;
    Some (set_SchemaName t n).

End Helpers.

(** ** The helpers as instantiated in the examples

    The theorems on [TypeName] and [SetSchemaName] hold for every choice
    of the two helpers.  The closed examples need one: there a name is
    exempt when it starts with the marker byte [IgnoreNameOverridePrefix],
    the byte [TypeName] then drops, and the alias is the word that follows
    [@name] in a trailing comment, as the tests write it
    ([//@name Teacher]). *)

Definition IgnoreNameOverridePrefix : ascii := "$"%char.

Definition ignoreNameOverride (name : string) : bool :=
  match name with
  | EmptyString => false
  | String c _ => Ascii.eqb c IgnoreNameOverridePrefix
  end.

Definition isSpace (c : ascii) : bool :=
  (Ascii.eqb c " " || Ascii.eqb c "009" || Ascii.eqb c "010"
   || Ascii.eqb c "011" || Ascii.eqb c "012" || Ascii.eqb c "013")%bool.

Fixpoint trimLeftWhile (p : ascii -> bool) (s : string) : string :=
  match s with
  | EmptyString => EmptyString
  | String c rest => if p c then trimLeftWhile p rest else s
  end.

Fixpoint takeWhile (p : ascii -> bool) (s : string) : string :=
  match s with
  | EmptyString => EmptyString
  | String c rest => if p c then String c (takeWhile p rest) else EmptyString
  end.

Definition toLowerByte (c : ascii) : ascii :=
  let n := nat_of_ascii c in
  if (65 <=? n)%nat && (n <=? 90)%nat then ascii_of_nat (n + 32) else c.

(** The text after a case-insensitive [@name] followed by white space,
    up to the next white space; [""] when the comment is not of that
    form. *)
Definition aliasOfComment (text : string) : string :=
  let body := trimLeftWhile isSpace (trimLeftWhile (Ascii.eqb "/") text) in
  if String.eqb (strings_Map toLowerByte (String.substring 0 5 body)) "@name"
  then
    let rest := String.substring 5 (String.length body - 5) body in
    match rest with
    | String c _ =>
        if isSpace c
        then takeWhile (fun x => negb (isSpace x)) (trimLeftWhile isSpace rest)
        else ""
    | EmptyString => ""
    end
  else "".

Fixpoint firstAlias (comments : list ast.Comment.t) : string :=
  match comments with
  | [] => ""
  | c :: rest =>
      let a := aliasOfComment (ast.Comment.Text c) in
      if negb (String.eqb a "") then a else firstAlias rest
  end.

Definition nameOverride (commentGroup : option ast.CommentGroup.t) : string :=
  match commentGroup with
  | None => ""
  | Some g => firstAlias (ast.CommentGroup.List g)
  end.

(** ** Symbol Registry: collision marking *)

(** Modelled from the spec: the pass of the Symbol Registry that sets
    [NotUnique] is not in [types.go].  Section 4.1: declarations are
    grouped by short name; when more than one declaration shares a short
    name, every one of them is marked. *)
Definition sharesShortName (n : string) (d : TypeSpecDef) : bool :=
  String.eqb (Name d) n.

(** Modelled from the spec: the size of the group of a short name
    (section 4.1); the grouping pass is not in [types.go]. *)
Definition shortNameCount (ds : list TypeSpecDef) (n : string) : nat :=
  length (List.filter (sharesShortName n) ds).

(** Modelled from the spec: the marking itself (section 4.1), absent from
    [types.go]: every declaration of a group of more than one is marked,
    the others are left as they are. *)
Definition markCollisions (ds : list TypeSpecDef) : list TypeSpecDef :=
  List.map (fun d => if (1 <? shortNameCount ds (Name d))%nat
                     then set_NotUnique d true else d) ds.

(** ** Type expressions and schemas *)

Inductive ScalarKind := KString | KInteger | KNumber | KBoolean.

(** Modelled from the spec: the parser of struct fields and their tags is
    not among the sources.  A Composite Field (section 3) without its type
    expression, which [TypeExpr] pairs with it.  Of the directive set the
    model keeps ignore, read-only, required, rename and inline-embed, and
    the documentation text; example values and validation constraints
    are not read by any statement below. *)
Module CompositeField.
Record t := mk {
  declaredName : string;
  ignore : bool;
  readOnly : bool;
  required : bool;
  rename : string;
  inlineEmbed : bool;
  documentation : string
}.
End CompositeField.

(** Modelled from the spec: the resolver and the expressions it walks are
    not among the sources.  The tagged variant of type expressions
    (section 3); maps have string keys. *)
Inductive TypeExpr :=
| Scalar (k : ScalarKind)
| NamedRef (name : string)
| PointerTo (t : TypeExpr)
| SliceOf (t : TypeExpr)
| MapOf (v : TypeExpr)
| Composite (fields : list (CompositeField.t * TypeExpr))
| AnyType
| FuncType.

(** Modelled from the spec: the enumeration metadata carried by a scalar
    Schema (sections 3 and 4.3), the code that emits it being absent from
    the sources.  [comments] and [descriptions] are optional keys of the
    emitted object: the expected document of the enums test data has
    them on [types.Class] and omits both on [types.Sex], none of whose
    constants is commented. *)
Record EnumMeta := mkEnumMeta {
  enum : list EnumValue.literal;
  varnames : list string;
  comments : option (gmap string string);
  descriptions : option (list string)
}.

(** Sibling keys of a property. *)
Record SiblingMeta := mkSiblingMeta {
  description : string;
  readOnlyFlag : bool
}.

(** Modelled from the spec: the Schema (section 3), the resolver that
    builds it being absent from the sources.  [Annotated] is a
    schema with sibling keys on the same node, [Wrapper] is the [allOf]
    form around references. *)
Inductive Schema :=
| ScalarSchema (k : ScalarKind) (e : option EnumMeta)
| ArraySchema (items : Schema)
| MapSchema (additionalProperties : option Schema)
| ObjectSchema (properties : list (string * Schema)) (requiredSet : list string)
| RefSchema (target : string)
| AnySchema
| Annotated (m : SiblingMeta) (s : Schema)
| Wrapper (m : SiblingMeta) (allOf : list Schema).

(** ** Enum Extractor *)

Definition hasComment (v : EnumValue.t) : bool :=
  negb (String.eqb (EnumValue.Comment v) "").

(** Modelled from the spec: the Enum Extractor is not among the sources.
    The name-to-comment map (section 4.3), only for identifiers that carry
    an inline comment. *)
Fixpoint enumComments (vs : list EnumValue.t) (m : gmap string string)
  : gmap string string :=
  match vs with
  | [] => m
  | v :: rest =>
      enumComments rest
        (if hasComment v then <[EnumValue.key v := EnumValue.Comment v]> m
         else m)
  end.

(** Modelled from the spec: the ordered description list of the absent
    Enum Extractor (section 4.3), aligned with the value list, empty
    string where no comment exists. *)
Definition enumDescriptions (vs : list EnumValue.t) : list string :=
  List.map EnumValue.Comment vs.

(** Modelled from the spec: what the Schema Resolver, absent from the
    sources, emits for the constants of a named scalar type (sections 4.2
    and 4.3); nothing when there are none.  The comment map and the
    description list are emitted together, when some constant is
    commented, as the expected document of the enums test data has
    them. *)
Definition enumMeta (vs : list EnumValue.t) : option EnumMeta :=
  match vs with
  | [] => None
  | _ =>
      let commented := existsb hasComment vs in
      Some {| enum := List.map EnumValue.Value vs;
              varnames := List.map EnumValue.key vs;
              comments := if commented then Some (enumComments vs ∅) else None;
              descriptions := if commented then Some (enumDescriptions vs)
                              else None |}
  end.

(** ** Schema Resolver *)

(** Modelled from the spec: the Declaration Store is not among the
    sources.  A registered declaration as the resolver reads it: the [TypeSpecDef] of [types.go], whose [SchemaName] is the
    canonical name the registry assigned and whose [Enums] the Enum
    Extractor filled, with its underlying type expression. *)
Record Declaration := mkDeclaration {
  def : TypeSpecDef;
  underlying : TypeExpr
}.

Definition canonicalName (d : Declaration) : string := SchemaName (def d).

(** Modelled from the spec: the fatal conditions of a pass (section 7)
    that the resolver, absent from the sources, raises itself. *)
Inductive Error :=
| UnresolvedReference (name : string)
| InvalidTypeShape.

(** The text of an error; the unresolved case is the one the test
    [TestOverrides_getTypeSchema] compares against. *)
Definition Error_text (e : Error) : string :=
  match e with
  | UnresolvedReference name => "cannot find type definition: " +:+ name
  | InvalidTypeShape => "InvalidTypeShape"
  end.

(** A pass either completes, aborts on a fatal error (its output is then
    discarded), or, in this model, runs out of fuel. *)
Inductive Outcome (A : Type) :=
| Done (a : A)
| Fatal (e : Error)
| Exhausted.
Arguments Done {A} a.
Arguments Fatal {A} e.
Arguments Exhausted {A}.

(** The pass-local output map, which doubles as the visited set. *)
Definition Output := gmap string Schema.

Definition Pass (A : Type) : Type := Output -> Outcome (A * Output).

Definition ret {A} (a : A) : Pass A := fun out => Done (a, out).

Definition bind {A B} (m : Pass A) (k : A -> Pass B) : Pass B :=
  fun out =>
    match m out with
    | Done (a, out') => k a out'
    | Fatal e => Fatal e
    | Exhausted => Exhausted
    end.

Definition fatal {A} (e : Error) : Pass A := fun _ => Fatal e.
Definition exhausted {A} : Pass A := fun _ => Exhausted.
Definition visited (name : string) : Pass (option Schema) :=
  fun out => Done (out !! name, out).
Definition store (name : string) (s : Schema) : Pass unit :=
  fun out => Done (tt, <[name := s]> out).

Notation "'let*' x ':=' m 'in' k" := (bind m (fun x => k))
  (at level 10, x name, m at level 100, k at level 200).

(** Property maps keep insertion order. *)
Fixpoint lookupProp (name : string) (ps : list (string * Schema))
  : option Schema :=
  match ps with
  | [] => None
  | (k, s) :: rest => if String.eqb k name then Some s else lookupProp name rest
  end.

(** An owner's own field: takes the slot of a same-named property if
    there is one, else is appended. *)
Fixpoint setProp (name : string) (s : Schema) (ps : list (string * Schema))
  : list (string * Schema) :=
  match ps with
  | [] => [(name, s)]
  | (k, v) :: rest =>
      if String.eqb k name then (k, s) :: rest
      else (k, v) :: setProp name s rest
  end.

(** A promoted field: lowest priority, dropped on a name collision. *)
Definition promoteProp (ps : list (string * Schema)) (p : string * Schema)
  : list (string * Schema) :=
  match lookupProp (fst p) ps with
  | Some _ => ps
  | None => (ps ++ [p])%list
  end.

Definition siblingsOf (f : CompositeField.t) : SiblingMeta :=
  {| description := CompositeField.documentation f;
     readOnlyFlag := CompositeField.readOnly f |}.

Definition noSiblings (m : SiblingMeta) : bool :=
  String.eqb (description m) "" && negb (readOnlyFlag m).

(** Modelled from the spec: wrapper or direct embedding (section 4.2), a
    decision of the absent field parser.  A
    reference without sibling metadata stays bare; with metadata it is
    wrapped as [allOf: [ref]] and the metadata sits on the wrapper; any
    other schema takes the metadata on its own node. *)
Definition attachSiblings (m : SiblingMeta) (s : Schema) : Schema :=
  if noSiblings m then s
  else match s with
       | RefSchema _ => Wrapper m [s]
       | _ => Annotated m s
       end.

Section Resolver.

(** The Naming Strategy, the re-parsing of a replacement type
    expression, the Symbol Registry and the Override Table are inputs
    of a pass. *)
Variable namingStrategy : string -> string.
Variable parseTypeExpr : string -> TypeExpr.
Variable registry : gmap string Declaration.
Variable overrides : gmap string string.

(** An explicit rename bypasses the strategy. *)
Definition emittedName (f : CompositeField.t) : string :=
  if negb (String.eqb (CompositeField.rename f) "")
  then CompositeField.rename f
  else namingStrategy (CompositeField.declaredName f).

(** The properties an embedded type promotes. *)
Definition promotedProps (s : Schema) (out : Output)
  : list (string * Schema) :=
  match s with
  | ObjectSchema ps _ => ps
  | RefSchema cn =>
      match out !! cn with
      | Some (ObjectSchema ps _) => ps
      | _ => []
      end
  | _ => []
  end.

(** Modelled from the spec: the field loop of the absent resolver
    (section 4.2).  One Composite Field, given the resolver
    [rec] for its type expression and the properties and required names
    gathered so far.  Precedence: ignore, then embed, then default. *)
Definition resolveField (rec : TypeExpr -> Pass (option Schema))
    (acc : list (string * Schema) * list string)
    (fld : CompositeField.t * TypeExpr)
  : Pass (list (string * Schema) * list string) :=
  let '(f, ty) := fld in
  if CompositeField.ignore f then ret acc
  else if CompositeField.inlineEmbed f then
    let* r := rec ty in
    match r with
    | None => ret acc
    | Some s =>
        fun out =>
          Done ((fold_left promoteProp (promotedProps s out) (fst acc),
                 snd acc), out)
    end
  else
    let* r := rec ty in
    match r with
    | None => ret acc
    | Some s =>
        let name := emittedName f in
        ret (setProp name (attachSiblings (siblingsOf f) s) (fst acc),
             if CompositeField.required f then (snd acc ++ [name])%list
             else snd acc)
    end.

(** The fields of a composite, in declaration order. *)
Fixpoint resolveFields (rec : TypeExpr -> Pass (option Schema))
    (fields : list (CompositeField.t * TypeExpr))
    (acc : list (string * Schema) * list string)
  : Pass (list (string * Schema) * list string) :=
  match fields with
  | [] => ret acc
  | fld :: rest =>
      let* acc' := resolveField rec acc fld in
      resolveFields rec rest acc'
  end.

(** Modelled from the spec: which schemas of declared types get a
    definition of their own.  Section 4.2 registers named composites and
    is silent on the other declared types, and the resolver is absent
    from the sources; the expected documents of the tests settle them: a
    declared struct, a declared map ([api.MyMapType]) and a scalar with
    constants ([types.Class]) are definitions that fields point to. *)
Definition ownsDefinition (s : Schema) : bool :=
  match s with
  | ObjectSchema _ _ | MapSchema _ | ScalarSchema _ (Some _) => true
  | _ => false
  end.

(** Modelled from the spec: the answer of the absent resolver for a
    declared type whose schema is [s]: that schema is stored under the
    canonical name and referred to, or handed over in place. *)
Definition answer (canonical : string) (s : Schema) : Pass (option Schema) :=
  if ownsDefinition s then
    let* u := store canonical s in ret (Some (RefSchema canonical))
  else ret (Some s).

(** Modelled from the spec: a registered declaration (section 4.2), the
    resolver itself being absent from the sources.  A name that already
    has its slot in the output is answered by a reference at once.  A
    composite gets its slot before its fields are resolved and is
    answered by a reference; a scalar carries the enumeration metadata of
    its constants; any other underlying expression is resolved first. *)
Definition resolveDeclaration (rec : TypeExpr -> Pass (option Schema))
    (d : Declaration) : Pass (option Schema) :=
  let* seen := visited (canonicalName d) in
  match seen with
  | Some _ => ret (Some (RefSchema (canonicalName d)))
  | None =>
      match underlying d with
      | Composite fields =>
          let* u := store (canonicalName d) (ObjectSchema [] []) in
          let* r := resolveFields rec fields ([], []) in
          let* u' := store (canonicalName d) (ObjectSchema (fst r) (snd r)) in
          ret (Some (RefSchema (canonicalName d)))
      | Scalar k =>
          answer (canonicalName d) (ScalarSchema k (enumMeta (Enums (def d))))
      | other =>
          let* r := rec other in
          match r with
          | Some s => answer (canonicalName d) s
          | None => ret None
          end
      end
  end.

(** Modelled from the spec: one level of [resolve] (section 4.2), which
    is absent from the sources, with [rec] for the recursive calls.  [None] tells the caller to omit the
    property. *)
Definition resolveStep (rec : TypeExpr -> Pass (option Schema))
    (e : TypeExpr) : Pass (option Schema) :=
  match e with
  | Scalar k => ret (Some (ScalarSchema k None))
  | NamedRef name =>
      match overrides !! name with
      | Some replacement =>
          if String.eqb replacement "" then ret None
          else rec (parseTypeExpr replacement)
      | None =>
          match registry !! name with
          | Some d => resolveDeclaration rec d
          | None => fatal (UnresolvedReference name)
          end
      end
  | PointerTo t => rec t
  | SliceOf t =>
      let* r := rec t in ret (ArraySchema <$> r)
  | MapOf AnyType => ret (Some (MapSchema None))
  | MapOf v =>
      let* r := rec v in ret ((fun s => MapSchema (Some s)) <$> r)
  | Composite fields =>
      let* r := resolveFields rec fields ([], []) in
      ret (Some (ObjectSchema (fst r) (snd r)))
  | AnyType => ret (Some AnySchema)
  | FuncType => fatal InvalidTypeShape
  end.

Fixpoint resolve (fuel : nat) : TypeExpr -> Pass (option Schema) :=
  match fuel with
  | O => fun _ => exhausted
  | S n => resolveStep (resolve n)
  end.

End Resolver.

(** ** Inputs of the examples *)

Module Fixtures.

Definition ident (s : string) : option ast.Ident.t := Some (ast.Ident.mk s).

(** A top-level declaration [name] of package [pkg] at path [path],
    trailed by the comments [cs]. *)
Definition topLevel (path pkg name : string) (cs : list string)
  : TypeSpecDef :=
  {| File := Some (ast.File.mk (ident pkg));
     TypeSpec :=
       Some (ast.TypeSpec.mk (ident name)
               (match cs with
                | [] => None
                | _ => Some (ast.CommentGroup.mk (List.map ast.Comment.mk cs))
                end));
     Enums := [];
     PkgPath := path;
     ParentSpec := None;
     SchemaName := "";
     NotUnique := false |}.

(** The same declaration inside the body of routine [fn]. *)
Definition scoped (path pkg fn name : string) : TypeSpecDef :=
  {| File := Some (ast.File.mk (ident pkg));
     TypeSpec := Some (ast.TypeSpec.mk (ident name) None);
     Enums := [];
     PkgPath := path;
     ParentSpec := Some (ast.FuncDeclPtr (Some (ast.FuncDecl.mk (ident fn))));
     SchemaName := "";
     NotUnique := false |}.

(** [TestParser_ParseType]: [Pet3] of package [api]. *)
Definition pet3 : TypeSpecDef := topLevel "testdata/simple/api" "api" "Pet3" [].

(** [TestParser_ParseDefinition], third definition. *)
Definition testInFunc : TypeSpecDef :=
  scoped "github.com/swagger/swag/model" "model" "TestFuncDecl" "Test".

(** A [TypeSpecDef] with neither [File] nor [TypeSpec]. *)
Definition blank : TypeSpecDef :=
  {| File := None; TypeSpec := None; Enums := []; PkgPath := "";
     ParentSpec := None; SchemaName := ""; NotUnique := false |}.

(** Two units whose import paths differ and sanitize alike. *)
Definition petA : TypeSpecDef := topLevel "example.com/a/b" "b" "Pet" [].
Definition petB : TypeSpecDef := topLevel "example.com/a_b" "a_b" "Pet" [].
Definition petC : TypeSpecDef := topLevel "example.com/c" "c" "Pet" [].

(** [TestParseFunctionScopedStructDefinition] and a top-level sibling. *)
Definition responseInFun : TypeSpecDef := scoped "api" "main" "Fun" "response".
Definition responseTop : TypeSpecDef := topLevel "api" "main" "response" [].

(** [TestParseSwaggerignoreForEmbedded]: [Child] is renamed [Student]. *)
Definition childStudent : TypeSpecDef :=
  topLevel "api" "main" "Child" ["//@name Student"].

(** The naming strategy of the examples: first byte in lower case. *)
Definition lowerFirst (s : string) : string :=
  match s with
  | EmptyString => EmptyString
  | String c rest => String (toLowerByte c) rest
  end.

(** Replacement expressions of the examples: a pointer or slice prefix
    over a primitive or a name. *)
Fixpoint parseTypeExpr (s : string) : TypeExpr :=
  match s with
  | String "*" rest => PointerTo (parseTypeExpr rest)
  | String "[" (String "]" rest) => SliceOf (parseTypeExpr rest)
  | _ =>
      if String.eqb s "string" then Scalar KString
      else if String.eqb s "int" then Scalar KInteger
      else if String.eqb s "float64" then Scalar KNumber
      else if String.eqb s "bool" then Scalar KBoolean
      else if String.eqb s "interface{}" then AnyType
      else NamedRef s
  end.

Definition plain (name : string) : CompositeField.t :=
  {| CompositeField.declaredName := name;
     CompositeField.ignore := false;
     CompositeField.readOnly := false;
     CompositeField.required := false;
     CompositeField.rename := "";
     CompositeField.inlineEmbed := false;
     CompositeField.documentation := "" |}.

Definition readonly (f : CompositeField.t) : CompositeField.t :=
  CompositeField.mk (CompositeField.declaredName f) (CompositeField.ignore f)
    true (CompositeField.required f) (CompositeField.rename f)
    (CompositeField.inlineEmbed f) (CompositeField.documentation f).

Definition documented (doc : string) (f : CompositeField.t)
  : CompositeField.t :=
  CompositeField.mk (CompositeField.declaredName f) (CompositeField.ignore f)
    (CompositeField.readOnly f) (CompositeField.required f)
    (CompositeField.rename f) (CompositeField.inlineEmbed f) doc.

Definition ignored (f : CompositeField.t) : CompositeField.t :=
  CompositeField.mk (CompositeField.declaredName f) true
    (CompositeField.readOnly f) (CompositeField.required f)
    (CompositeField.rename f) (CompositeField.inlineEmbed f)
    (CompositeField.documentation f).

Definition embedded (f : CompositeField.t) : CompositeField.t :=
  CompositeField.mk (CompositeField.declaredName f) (CompositeField.ignore f)
    (CompositeField.readOnly f) (CompositeField.required f)
    (CompositeField.rename f) true (CompositeField.documentation f).

Definition declare (canonical : string) (t : TypeSpecDef) (e : TypeExpr)
  : Declaration :=
  {| def := set_SchemaName t canonical; underlying := e |}.

(** [TestParser_RefWithOtherPropertiesIsWrappedInAllOf]. *)
Definition teacherStudent : gmap string Declaration :=
  <["Teacher" :=
      declare "Teacher" (topLevel "api" "main" "Teacher" ["//@name Teacher"])
        (Composite [(plain "Name", Scalar KString)])]>
 (<["Student" :=
      declare "Student" (topLevel "api" "main" "Student" ["//@name Student"])
        (Composite [(plain "Name", Scalar KString);
                    (readonly (plain "Age"), Scalar KInteger);
                    (readonly (plain "Teacher"), NamedRef "Teacher");
                    (plain "OtherTeacher", NamedRef "Teacher")])]> ∅).

(** [TestParser_ParseStructPointerMembers]. *)
Definition childParent : gmap string Declaration :=
  <["Child" :=
      declare "api.Child" (topLevel "api" "api" "Child" [])
        (Composite [(plain "Name", Scalar KString)])]>
 (<["Parent" :=
      declare "api.Parent" (topLevel "api" "api" "Parent" [])
        (Composite
           [(documented "test1" (plain "Test1"), PointerTo (Scalar KString));
            (documented "test2" (plain "Test2"),
             PointerTo (NamedRef "Child"))])]> ∅).

(** [TestParseSwaggerignoreForEmbedded]. *)
Definition ignoredEmbedded : gmap string Declaration :=
  <["Child" :=
      declare "Student" childStudent
        (Composite [(plain "ChildName", Scalar KString)])]>
 (<["Parent" :=
      declare "Teacher" (topLevel "api" "main" "Parent" ["//@name Teacher"])
        (Composite [(plain "Name", Scalar KString);
                    (ignored (embedded (plain "Child")),
                     NamedRef "Child")])]> ∅).

(** [TestParser_ParseStructMapMember]. *)
Definition mapMembers : gmap string Declaration :=
  <["MyMapType" :=
      declare "api.MyMapType" (topLevel "api" "api" "MyMapType" [])
        (MapOf (Scalar KString))]>
 (<["Child" :=
      declare "api.Child" (topLevel "api" "api" "Child" [])
        (Composite [(plain "Name", Scalar KString)])]>
 (<["Parent" :=
      declare "api.Parent" (topLevel "api" "api" "Parent" [])
        (Composite
           [(documented "test1" (plain "Test1"), MapOf AnyType);
            (documented "test2" (plain "Test2"), MapOf (Scalar KString));
            (documented "test3" (plain "Test3"),
             MapOf (PointerTo (Scalar KString)));
            (documented "test4" (plain "Test4"), MapOf (NamedRef "Child"));
            (documented "test5" (plain "Test5"),
             MapOf (PointerTo (NamedRef "Child")));
            (documented "test6" (plain "Test6"), NamedRef "MyMapType");
            (documented "test7" (plain "Test7"), SliceOf (NamedRef "Child"));
            (documented "test8" (plain "Test8"),
             SliceOf (PointerTo (NamedRef "Child")));
            (documented "test9" (plain "Test9"),
             SliceOf (MapOf (Scalar KString)))])]> ∅)).

(** [TestOverrides_getTypeSchema] and [TestSetOverrides]. *)
Definition sqlOverrides : gmap string string :=
  <["sql.NullString" := "string"]> ∅.
Definition fooOverrides : gmap string string := <["foo" := "bar"]> ∅.

(** [TestParser_ParseDefinition], second definition: a declared name
    whose type is a function type. *)
Definition funcTyped : gmap string Declaration :=
  <["model.Test" :=
      declare "model.Test"
        (topLevel "github.com/swagger/swag/model" "model" "Test" [])
        FuncType]> ∅.

Definition constant (k : string) (v : Z) (c : string) : EnumValue.t :=
  EnumValue.mk k (EnumValue.LInteger v) c.

(** The constants of [types.Class] and [types.Sex] in the enums test
    data. *)
Definition classConstants : list EnumValue.t :=
  [constant "None" (-1) ""; constant "A" 1 "AAA"; constant "B" 2 "BBB";
   constant "C" 3 ""; constant "D" 4 ""; constant "F" 5 ""].
Definition sexConstants : list EnumValue.t :=
  [constant "Male" 77 ""; constant "Female" 70 ""].

(** [types.Person] and two of the types of its fields in the enums
    test data. *)
Definition person : gmap string Declaration :=
  <["Class" :=
      {| def := mkTypeSpecDef (File (topLevel "types" "types" "Class" []))
                  (TypeSpec (topLevel "types" "types" "Class" []))
                  classConstants "types" None "types.Class" false;
         underlying := Scalar KInteger |}]>
 (<["Sex" :=
      {| def := mkTypeSpecDef (File (topLevel "types" "types" "Sex" []))
                  (TypeSpec (topLevel "types" "types" "Sex" []))
                  sexConstants "types" None "types.Sex" false;
         underlying := Scalar KInteger |}]>
 (<["Person" :=
      declare "types.Person" (topLevel "types" "types" "Person" [])
        (Composite [(plain "Name", Scalar KString);
                    (plain "Class", NamedRef "Class");
                    (plain "Sex", NamedRef "Sex")])]> ∅)).

(** The constants of the enum-emission property of section 8. *)
Definition abcConstants : list EnumValue.t :=
  [constant "A" 1 "first"; constant "B" 2 ""; constant "C" 3 "third"].

End Fixtures.


(** The resolver with the naming strategy and the type-expression syntax
    of the examples. *)
Abbreviation resolveIn reg ovr :=
  (resolve Fixtures.lowerFirst Fixtures.parseTypeExpr reg ovr).

(** The definitions a pass leaves behind, by name. *)
Definition definitionsOf (o : Outcome (option Schema * Output)) (name : string)
  : option Schema :=
  match o with
  | Done (_, out) => out !! name
  | _ => None
  end.

(** * The command line: [cmd/swag/main.go] *)

(** [strings.Split(s, sep)] for a separator of one byte: the substrings
    between the occurrences of [sep], one more than there are
    occurrences. *)
Fixpoint strings_Split (s : string) (sep : ascii) : list string :=
  match s with
  | EmptyString => [EmptyString]
  | String c rest =>
      if Ascii.eqb c sep then EmptyString :: strings_Split rest sep
      else match strings_Split rest sep with
           | part :: parts => String c part :: parts
           | [] => [String c EmptyString]
           end
  end.

(** The part of [cli.Context] that the actions read: the value of a flag
    by name, and whether a flag was given. *)
Module cli.
Record Context := mkContext {
  String : string -> string;
  Bool : string -> bool;
  Int : string -> Z;
  IsSet : string -> bool
}.
End cli.

(** [gen.Config], with the fields that [initAction] fills; the logger is
    either bound to the standard output or discards what it is given. *)
Module gen.
Inductive Logger := StdoutLogger | DiscardLogger.

Record Config := mkConfig {
  SearchDir : string;
  Excludes : string;
  ParseExtension : string;
  MainAPIFile : string;
  PropNamingStrategy : string;
  OutputDir : string;
  OutputTypes : list string;
  ParseVendor : bool;
  ParseDependency : Z;
  MarkdownFilesDir : string;
  ParseInternal : bool;
  UseStructNames : bool;
  GeneratedTime : bool;
  RequiredByDefault : bool;
  CodeExampleFilesDir : string;
  ParseDepth : Z;
  InstanceName : string;
  OverridesFile : string;
  ParseGoList : bool;
  Tags : string;
  LeftTemplateDelim : string;
  RightTemplateDelim : string;
  PackageName : string;
  Debugger : Logger;
  CollectionFormat : string;
  PackagePrefix : string;
  State : string;
  ParseFuncBody : bool
}.
End gen.

Module main.

Definition searchDirFlag := "dir".
Definition excludeFlag := "exclude".
Definition generalInfoFlag := "generalInfo".
Definition pipeFlag := "pipe".
Definition propertyStrategyFlag := "propertyStrategy".
Definition outputFlag := "output".
Definition outputTypesFlag := "outputTypes".
Definition parseVendorFlag := "parseVendor".
Definition parseDependencyFlag := "parseDependency".
Definition useStructNameFlag := "useStructName".
Definition parseDependencyLevelFlag := "parseDependencyLevel".
Definition markdownFilesFlag := "markdownFiles".
Definition codeExampleFilesFlag := "codeExampleFiles".
Definition parseInternalFlag := "parseInternal".
Definition generatedTimeFlag := "generatedTime".
Definition requiredByDefaultFlag := "requiredByDefault".
Definition parseDepthFlag := "parseDepth".
Definition instanceNameFlag := "instanceName".
Definition overridesFileFlag := "overridesFile".
Definition parseGoListFlag := "parseGoList".
Definition quietFlag := "quiet".
Definition tagsFlag := "tags".
Definition parseExtensionFlag := "parseExtension".
Definition templateDelimsFlag := "templateDelims".
Definition packageName := "packageName".
Definition collectionFormatFlag := "collectionFormat".
Definition packagePrefixFlag := "packagePrefix".
Definition stateFlag := "state".
Definition parseFuncBodyFlag := "parseFuncBody".

(** The errors [initAction] builds with [fmt.Errorf]. *)
Inductive InitError :=
| NotSupportedStrategy (strategy : string)
| DelimsNotTwo
| DelimsEqual
| NoOutputTypes
| NotSupportedCollectionFormat (shown : string).

Definition InitError_Error (e : InitError) : string :=
  match e with
  | NotSupportedStrategy strategy =>
      "not supported " +:+ strategy +:+ " propertyStrategy"
  | DelimsNotTwo =>
      "exactly two template delimiters must be provided, comma separated"
  | DelimsEqual => "template delimiters must be different"
  | NoOutputTypes => "no output types specified"
  | NotSupportedCollectionFormat shown =>
      "not supported " +:+ shown +:+ " collectionFormat"
  end.

Section InitAction.

(** Declared outside [main.go]: the three strategy names and the
    normalization of a collection format of package [swag], and
    [strings.TrimSpace]. *)
Variables CamelCase SnakeCase PascalCase : string.
Variable TransToValidCollectionFormat : string -> string.
Variable strings_TrimSpace : string -> string.

(** [initAction], up to the call of [gen.New().Build]: the error it
    returns before that call, or the configuration it passes to it. *)
Definition initAction (ctx : cli.Context) : InitError + gen.Config :=
  let strategy := cli.String ctx propertyStrategyFlag in
  if negb (String.eqb strategy CamelCase || String.eqb strategy SnakeCase
           || String.eqb strategy PascalCase)
  then inl (NotSupportedStrategy strategy)
  else
    let delimiters :=
      if cli.IsSet ctx templateDelimsFlag then
        let delims := strings_Split (cli.String ctx templateDelimsFlag) "," in
        if negb (Nat.eqb (List.length delims) 2) then inl DelimsNotTwo
        else if String.eqb (nth 0 delims "") (nth 1 delims "")
        then inl DelimsEqual
        else inr (strings_TrimSpace (nth 0 delims ""),
                  strings_TrimSpace (nth 1 delims ""))
      else inr ("{{", "}}") in
    match delimiters with
    | inl e => inl e
    | inr (leftDelim, rightDelim) =>
        let outputTypes := strings_Split (cli.String ctx outputTypesFlag) "," in
        if Nat.eqb (List.length outputTypes) 0 then inl NoOutputTypes
        else
          let logger := if cli.Bool ctx quietFlag then gen.DiscardLogger
                        else gen.StdoutLogger in
          let collectionFormat :=
            TransToValidCollectionFormat (cli.String ctx collectionFormatFlag) in
          if String.eqb collectionFormat ""
          then inl (NotSupportedCollectionFormat
                      (cli.String ctx collectionFormat))
          else
            let pdv := cli.Int ctx parseDependencyLevelFlag in
            let pdv := if Z.eqb pdv 0
                       then if cli.Bool ctx parseDependencyFlag then 1%Z
                            else pdv
                       else pdv in
            inr {| gen.SearchDir := cli.String ctx searchDirFlag;
                   gen.Excludes := cli.String ctx excludeFlag;
                   gen.ParseExtension := cli.String ctx parseExtensionFlag;
                   gen.MainAPIFile := cli.String ctx generalInfoFlag;
                   gen.PropNamingStrategy := strategy;
                   gen.OutputDir := cli.String ctx outputFlag;
                   gen.OutputTypes := outputTypes;
                   gen.ParseVendor := cli.Bool ctx parseVendorFlag;
                   gen.ParseDependency := pdv;
                   gen.MarkdownFilesDir := cli.String ctx markdownFilesFlag;
                   gen.ParseInternal := cli.Bool ctx parseInternalFlag;
                   gen.UseStructNames := cli.Bool ctx useStructNameFlag;
                   gen.GeneratedTime := cli.Bool ctx generatedTimeFlag;
                   gen.RequiredByDefault := cli.Bool ctx requiredByDefaultFlag;
                   gen.CodeExampleFilesDir :=
                     cli.String ctx codeExampleFilesFlag;
                   gen.ParseDepth := cli.Int ctx parseDepthFlag;
                   gen.InstanceName := cli.String ctx instanceNameFlag;
                   gen.OverridesFile := cli.String ctx overridesFileFlag;
                   gen.ParseGoList := cli.Bool ctx parseGoListFlag;
                   gen.Tags := cli.String ctx tagsFlag;
                   gen.LeftTemplateDelim := leftDelim;
                   gen.RightTemplateDelim := rightDelim;
                   gen.PackageName := cli.String ctx packageName;
                   gen.Debugger := logger;
                   gen.CollectionFormat := collectionFormat;
                   gen.PackagePrefix := cli.String ctx packagePrefixFlag;
                   gen.State := cli.String ctx stateFlag;
                   gen.ParseFuncBody := cli.Bool ctx parseFuncBodyFlag |}
    end.

(** The template delimiters of a command line that passes the check of
    the delimiters: the default pair, or the two trimmed parts of the
    flag, which differ before trimming. *)
Inductive Delimiters (ctx : cli.Context) : string -> string -> Prop :=
| DefaultDelimiters :
    cli.IsSet ctx templateDelimsFlag = false ->
    Delimiters ctx "{{" "}}"
| GivenDelimiters (l r : string) :
    cli.IsSet ctx templateDelimsFlag = true ->
    strings_Split (cli.String ctx templateDelimsFlag) "," = [l; r] ->
    l <> r ->
    Delimiters ctx (strings_TrimSpace l) (strings_TrimSpace r).

(** The strategy is one of the three names. *)
Definition supported (strategy : string) : Prop :=
  strategy = CamelCase \/ strategy = SnakeCase \/ strategy = PascalCase.

End InitAction.

End main.

(** ** Inputs of the examples on the command line *)

Module MainFixtures.

(** A command line for the examples: the string flags at the values of
    [values], every other string flag empty, the boolean flags unset, the
    integer flags zero, and the flags named in [given] given. *)
Definition contextOf (values : list (string * string)) (given : list string)
  : cli.Context :=
  {| cli.String := fun name =>
       match List.find (fun kv => String.eqb (fst kv) name) values with
       | Some kv => snd kv
       | None => ""
       end;
     cli.Bool := fun _ => false;
     cli.Int := fun _ => 0%Z;
     cli.IsSet := fun name => existsb (String.eqb name) given |}.

(** White space of the examples: blanks at both ends. *)
Fixpoint trimRightBlanks (s : string) : string :=
  match s with
  | EmptyString => EmptyString
  | String c rest =>
      match trimRightBlanks rest with
      | EmptyString => if Ascii.eqb c " " then EmptyString
                       else String c EmptyString
      | kept => String c kept
      end
  end.

Definition trimBlanks (s : string) : string :=
  trimRightBlanks (trimLeftWhile (Ascii.eqb " ") s).

(** The parameters of [initAction] in the examples: three strategy
    names, and a normalization that keeps five collection formats and
    answers the empty string for any other. *)
Definition keepKnownFormat (format : string) : string :=
  if existsb (String.eqb format) ["csv"; "multi"; "pipes"; "tsv"; "ssv"]
  then format else "".

Definition initAction : cli.Context -> main.InitError + gen.Config :=
  main.initAction "camelcase" "snakecase" "pascalcase" keepKnownFormat
    trimBlanks.

(** The flags at the values [initFlags] gives them by default, as far as
    [initAction] checks them. *)
Definition defaults : list (string * string) :=
  [("propertyStrategy", "camelcase"); ("outputTypes", "go,json,yaml");
   ("collectionFormat", "csv"); ("generalInfo", "main.go"); ("dir", "./");
   ("output", "./docs")].

(** The default command line, and two that give the delimiters flag. *)
Definition plainRun : cli.Context := contextOf defaults [].
Definition bracketRun : cli.Context :=
  contextOf (("templateDelims", "[[,]]") :: defaults) ["templateDelims"].
Definition blankRun : cli.Context :=
  contextOf (("templateDelims", "[[ ,[[") :: defaults) ["templateDelims"].
Definition xmlRun : cli.Context :=
  contextOf (("collectionFormat", "xml") :: defaults) [].

End MainFixtures.

(** * Properties *)

(** ** Byte strings *)

Lemma app_String (c : ascii) (s t : string) :
  String c s +:+ t = String c (s +:+ t).
Proof. reflexivity. Qed.

Lemma length_app (s1 s2 : string) :
  String.length (s1 +:+ s2) = String.length s1 + String.length s2.
Proof.
  induction s1 as [|c s1 IH]; [reflexivity|].
  rewrite app_String. simpl. now rewrite IH.
Qed.

(** A common suffix can be cancelled. *)
Lemma app_cancel_r (s1 s2 t : string) : s1 +:+ t = s2 +:+ t -> s1 = s2.
Proof.
  revert s2. induction s1 as [|c s1 IH]; intros [|c' s2] H.
  - reflexivity.
  - apply (f_equal String.length) in H. rewrite !length_app in H.
    simpl in H. lia.
  - apply (f_equal String.length) in H. rewrite !length_app in H.
    simpl in H. lia.
  - rewrite !app_String in H. injection H as -> H. f_equal. now apply IH.
Qed.

Lemma containsByte_app (c : ascii) (s1 s2 : string) :
  containsByte c (s1 +:+ s2) = containsByte c s1 || containsByte c s2.
Proof.
  induction s1 as [|x s1 IH]; [reflexivity|].
  rewrite app_String. simpl. rewrite IH. now rewrite orb_assoc.
Qed.

Lemma fullTypeName_1 (a : string) : fullTypeName [a] = a.
Proof. reflexivity. Qed.

Lemma fullTypeName_2 (a b : string) : fullTypeName [a; b] = a +:+ "." +:+ b.
Proof. reflexivity. Qed.

Lemma fullTypeName_3 (a b c : string) :
  fullTypeName [a; b; c] = a +:+ "." +:+ b +:+ "." +:+ c.
Proof. reflexivity. Qed.

(** ** Sanitization of the package path *)

Lemma sanitizeRune_cases (r : ascii) :
  (sanitizeRune r = "_"%char /\ (r = "\"%char \/ r = "/"%char \/ r = "."%char))
  \/ (sanitizeRune r = r /\ r <> "\"%char /\ r <> "/"%char /\ r <> "."%char).
Proof.
  unfold sanitizeRune.
  destruct (Ascii.eqb_spec r "\"); [left; auto|].
  destruct (Ascii.eqb_spec r "/"); [left; auto|].
  destruct (Ascii.eqb_spec r "."); [left; auto|].
  right; auto.
Qed.

Lemma strings_Map_length (f : ascii -> ascii) (s : string) :
  String.length (strings_Map f s) = String.length s.
Proof. induction s as [|c s IH]; simpl; congruence. Qed.

Lemma strings_Map_get (f : ascii -> ascii) (s : string) (i : nat) :
  String.get i (strings_Map f s) = option_map f (String.get i s).
Proof.
  revert i. induction s as [|c s IH]; intros [|i]; simpl; auto.
Qed.

(** No separator and no dot survives in a sanitized path. *)
Lemma sanitized_clean (c : ascii) (s : string) :
  c = "\"%char \/ c = "/"%char \/ c = "."%char ->
  containsByte c (strings_Map sanitizeRune s) = false.
Proof.
  intros Hc. induction s as [|x s IH]; simpl; [reflexivity|].
  rewrite IH, orb_false_r. apply Ascii.eqb_neq.
  destruct (sanitizeRune_cases x) as [[-> _]|[-> (H1 & H2 & H3)]];
    destruct Hc as [->|[->| ->]]; congruence.
Qed.

(** ** [Name] *)

(** [TypeName] panics exactly where [Name] falls back to the empty
    string. *)
Lemma TypeName_panics_without_TypeSpec ign (t : TypeSpecDef) :
  TypeSpec t = None -> TypeName ign t = None.
Proof. unfold TypeName. now intros ->. Qed.

(** C10: [Name] is total: it returns the declared identifier when both
    the TypeSpec and its Name node are present, and the empty string,
    without failing, when the TypeSpec is absent (or its Name node is). *)
Theorem Name_total (t : TypeSpecDef) :
  (forall ts id, TypeSpec t = Some ts -> ast.TypeSpec.Name ts = Some id ->
                 Name t = ast.Ident.Name id)
  /\ (TypeSpec t = None -> Name t = "")
  /\ (forall ts, TypeSpec t = Some ts -> ast.TypeSpec.Name ts = None ->
                 Name t = "").
Proof.
  unfold Name. repeat split.
  - intros ts id -> ->. reflexivity.
  - intros ->. reflexivity.
  - intros ts -> ->. reflexivity.
Qed.

Lemma Name_total_witness :
  Name Fixtures.pet3 = "Pet3" /\ Name Fixtures.blank = "".
Proof.
  split.
  - destruct (Name_total Fixtures.pet3) as [H _].
    exact (H _ _ eq_refl eq_refl).
  - destruct (Name_total Fixtures.blank) as (_ & H & _).
    exact (H eq_refl).
Defined.

(** ** [TypeName] and [SetSchemaName] *)

Section Canonical.

Variable ign : string -> bool.
Variable nov : option ast.CommentGroup.t -> string.

(** What [TypeName] pushes for a declaration that is not inside a
    routine body. *)
Lemma scopePart_toplevel (t : TypeSpecDef) :
  ParentSpec t = None -> scopePart t = Some [].
Proof. unfold scopePart. now intros ->. Qed.

Lemma TypeName_parts (t : TypeSpecDef) ts id u p :
  TypeSpec t = Some ts -> ast.TypeSpec.Name ts = Some id ->
  ign (ast.Ident.Name id) = false ->
  unitPart t = Some u -> scopePart t = Some p ->
  TypeName ign t = Some (fullTypeName (u ++ p ++ [ast.Ident.Name id])%list).
Proof.
  intros Hts Hid Hign Hu Hp. unfold TypeName.
  rewrite Hts. simpl. rewrite Hid. simpl. rewrite Hign, Hu. simpl.
  rewrite Hp. reflexivity.
Qed.

(** The schema name falls back on [TypeName] when there is no alias. *)
Lemma SetSchemaName_no_alias (t : TypeSpecDef) ts n :
  TypeSpec t = Some ts -> nov (ast.TypeSpec.Comment ts) = "" ->
  TypeName ign t = Some n ->
  SetSchemaName ign nov t = Some (set_SchemaName t n).
Proof.
  intros Hts Hnov Hn. unfold SetSchemaName, Alias.
  rewrite Hts. simpl. rewrite Hnov. simpl. rewrite Hn. reflexivity.
Qed.

(** C1 (as amended): a declaration that is not marked as colliding, is
    not declared inside a routine body, carries no name-override and
    whose name is not exempt is named [pkg.ShortName], [pkg] being the
    package name of its file; the name is the short name alone only
    when the declaration has no file.  [SetSchemaName] stores that
    name. *)
Theorem TypeName_unique_toplevel (t : TypeSpecDef) ts id :
  TypeSpec t = Some ts -> ast.TypeSpec.Name ts = Some id ->
  ign (ast.Ident.Name id) = false ->
  nov (ast.TypeSpec.Comment ts) = "" ->
  NotUnique t = false -> ParentSpec t = None ->
  (forall f pkg, File t = Some f -> ast.File.Name f = Some pkg ->
     let n := ast.Ident.Name pkg +:+ "." +:+ Name t in
     TypeName ign t = Some n /\
     SetSchemaName ign nov t = Some (set_SchemaName t n))
  /\ (File t = None ->
      TypeName ign t = Some (Name t) /\
      SetSchemaName ign nov t = Some (set_SchemaName t (Name t))).
Proof.
  intros Hts Hid Hign Hnov Hu Hp.
  assert (HN : Name t = ast.Ident.Name id)
    by (unfold Name; now rewrite Hts, Hid).
  rewrite HN. split.
  - intros f pkg Hf Hpkg n.
    assert (Hn : TypeName ign t = Some n).
    { rewrite (TypeName_parts t ts id [ast.Ident.Name pkg] [] Hts Hid Hign).
      - reflexivity.
      - unfold unitPart. rewrite Hu, Hf. simpl. now rewrite Hpkg.
      - now apply scopePart_toplevel. }
    split; [exact Hn | now apply (SetSchemaName_no_alias t ts)].
  - intros Hf.
    assert (Hn : TypeName ign t = Some (ast.Ident.Name id)).
    { rewrite (TypeName_parts t ts id [] [] Hts Hid Hign).
      - reflexivity.
      - unfold unitPart. now rewrite Hu, Hf.
      - now apply scopePart_toplevel. }
    split; [exact Hn | now apply (SetSchemaName_no_alias t ts)].
Qed.

(** C4: a declaration that carries a non-empty alias gets exactly the
    alias as its schema name, whatever its collision mark, its file and
    its enclosing scope are; [TypeName] is not consulted. *)
Theorem SetSchemaName_alias (t : TypeSpecDef) ts :
  TypeSpec t = Some ts ->
  nov (ast.TypeSpec.Comment ts) <> "" ->
  SetSchemaName ign nov t
  = Some (set_SchemaName t (nov (ast.TypeSpec.Comment ts)))
  /\ (SchemaName <$> SetSchemaName ign nov t)
     = Some (nov (ast.TypeSpec.Comment ts)).
Proof.
  intros Hts Ha. unfold SetSchemaName, Alias. rewrite Hts. simpl.
  destruct (String.eqb_spec (nov (ast.TypeSpec.Comment ts)) "") as [E|_].
  - contradiction.
  - simpl. split; reflexivity.
Qed.

End Canonical.

(** [TestParser_ParseDefinition]: ["model.TestFuncDecl.Test"]. *)
Example TypeName_testInFunc :
  TypeName ignoreNameOverride Fixtures.testInFunc
  = Some "model.TestFuncDecl.Test".
Proof. reflexivity. Qed.

(** An exempt name loses its marker byte and is not qualified. *)
Example TypeName_exempt :
  TypeName ignoreNameOverride (Fixtures.topLevel "api" "api" "$Pet" [])
  = Some "Pet".
Proof. reflexivity. Qed.

Lemma TypeName_unique_toplevel_witness :
  TypeName ignoreNameOverride Fixtures.pet3 = Some "api.Pet3"
  /\ SetSchemaName ignoreNameOverride nameOverride Fixtures.pet3
     = Some (set_SchemaName Fixtures.pet3 "api.Pet3").
Proof.
  destruct (TypeName_unique_toplevel ignoreNameOverride nameOverride
              Fixtures.pet3 _ _ eq_refl eq_refl eq_refl eq_refl eq_refl eq_refl)
    as [H _].
  exact (H _ _ eq_refl eq_refl).
Defined.

(** C1 (as stated) fails: [Pet3] of package [api] is the only declaration
    of its short name, is top-level and has no alias, and is named
    ["api.Pet3"], as [TestParser_ParseType] expects, not ["Pet3"]. *)
Lemma unique_name_is_package_qualified :
  NotUnique Fixtures.pet3 = false
  /\ ParentSpec Fixtures.pet3 = None
  /\ Alias nameOverride Fixtures.pet3 = Some ""
  /\ Name Fixtures.pet3 = "Pet3"
  /\ TypeName ignoreNameOverride Fixtures.pet3 = Some "api.Pet3"
  /\ (SchemaName <$> SetSchemaName ignoreNameOverride nameOverride Fixtures.pet3)
     = Some "api.Pet3"
  /\ TypeName ignoreNameOverride Fixtures.pet3 <> Some (Name Fixtures.pet3).
Proof. repeat split; discriminate. Qed.

Lemma SetSchemaName_alias_witness :
  SetSchemaName ignoreNameOverride nameOverride Fixtures.childStudent
  = Some (set_SchemaName Fixtures.childStudent "Student")
  /\ (SchemaName <$>
        SetSchemaName ignoreNameOverride nameOverride Fixtures.childStudent)
     = Some "Student".
Proof.
  apply (SetSchemaName_alias ignoreNameOverride nameOverride
           Fixtures.childStudent _ eq_refl).
  discriminate.
Defined.

(** The alias also wins over the collision mark and the scope. *)
Example alias_wins_over_collision_and_scope :
  SchemaName <$>
    SetSchemaName ignoreNameOverride nameOverride
      (set_NotUnique
         (mkTypeSpecDef (File Fixtures.responseInFun)
            (TypeSpec Fixtures.childStudent) [] "a/b"
            (ParentSpec Fixtures.responseInFun) "" false) true)
  = Some "Student".
Proof. reflexivity. Qed.

(** ** Collision marking and the names of colliding declarations *)

Lemma app_assoc_string (s1 s2 s3 : string) :
  (s1 +:+ s2) +:+ s3 = s1 +:+ s2 +:+ s3.
Proof.
  induction s1 as [|c s1 IH]; [reflexivity|].
  rewrite !app_String. now rewrite IH.
Qed.

Section Counting.

Context {A : Type} (P : A -> bool).

Lemma count_one (l : list A) (d : A) :
  In d l -> P d = true -> 1 <= List.length (List.filter P l).
Proof.
  induction l as [|x l IH]; simpl; [tauto|].
  intros [->|Hin] Hd.
  - rewrite Hd. simpl. lia.
  - specialize (IH Hin Hd). destruct (P x); simpl; lia.
Qed.

Lemma count_two (l : list A) (d d' : A) :
  In d l -> In d' l -> d <> d' -> P d = true -> P d' = true ->
  2 <= List.length (List.filter P l).
Proof.
  induction l as [|x l IH]; simpl; [tauto|].
  intros [->|Hin] [->|Hin'] Hne Hd Hd'.
  - congruence.
  - rewrite Hd. simpl. pose proof (count_one l d' Hin' Hd'). lia.
  - rewrite Hd'. simpl. pose proof (count_one l d Hin Hd). lia.
  - specialize (IH Hin Hin' Hne Hd Hd'). destruct (P x); simpl; lia.
Qed.

End Counting.

(** A declaration whose short name occurs on another declaration of the
    list comes out marked. *)
Lemma markCollisions_shared (ds : list TypeSpecDef) (d d' : TypeSpecDef) :
  In d ds -> In d' ds -> d <> d' -> Name d = Name d' ->
  In (set_NotUnique d true) (markCollisions ds).
Proof.
  intros Hd Hd' Hne HN. unfold markCollisions.
  apply in_map_iff. exists d. split; [|exact Hd].
  assert (H2 : 2 <= shortNameCount ds (Name d)).
  { apply (count_two _ ds d d'); auto; unfold sharesShortName.
    - apply String.eqb_refl.
    - rewrite HN. apply String.eqb_refl. }
  destruct (Nat.ltb_spec 1 (shortNameCount ds (Name d))); [reflexivity | lia].
Qed.

(** A declaration whose short name is its own stays as it is. *)
Lemma markCollisions_alone (d : TypeSpecDef) : markCollisions [d] = [d].
Proof.
  unfold markCollisions, shortNameCount, sharesShortName. simpl.
  now rewrite String.eqb_refl.
Qed.

Lemma TypeName_marked ign (d : TypeSpecDef) ts id :
  TypeSpec d = Some ts -> ast.TypeSpec.Name ts = Some id ->
  ign (ast.Ident.Name id) = false -> ParentSpec d = None ->
  TypeName ign (set_NotUnique d true)
  = Some (strings_Map sanitizeRune (PkgPath d) +:+ "." +:+ Name d).
Proof.
  intros Hts Hid Hign Hp.
  rewrite (TypeName_parts ign _ ts id
             [strings_Map sanitizeRune (PkgPath d)] []).
  - unfold Name. rewrite Hts, Hid. reflexivity.
  - exact Hts.
  - exact Hid.
  - exact Hign.
  - reflexivity.
  - apply scopePart_toplevel. exact Hp.
Qed.

(** C2 (as amended): declarations of different units that share a short
    name are each marked as colliding and named
    [sanitized-unit-path.ShortName]; the sanitized path has the length of
    the unit path, carries an underscore wherever the path has a
    separator or a dot and the path's own byte elsewhere, and so contains
    neither separator nor dot; the two names differ exactly when the
    sanitized unit paths differ. *)
Theorem collision_promotion ign (ds : list TypeSpecDef) (d d' : TypeSpecDef)
    ts ts' id id' :
  In d ds -> In d' ds -> PkgPath d <> PkgPath d' ->
  TypeSpec d = Some ts -> ast.TypeSpec.Name ts = Some id ->
  TypeSpec d' = Some ts' -> ast.TypeSpec.Name ts' = Some id' ->
  ast.Ident.Name id = ast.Ident.Name id' ->
  ign (ast.Ident.Name id) = false ->
  ParentSpec d = None -> ParentSpec d' = None ->
  In (set_NotUnique d true) (markCollisions ds)
  /\ In (set_NotUnique d' true) (markCollisions ds)
  /\ TypeName ign (set_NotUnique d true)
     = Some (strings_Map sanitizeRune (PkgPath d) +:+ "." +:+ Name d)
  /\ TypeName ign (set_NotUnique d' true)
     = Some (strings_Map sanitizeRune (PkgPath d') +:+ "." +:+ Name d')
  /\ String.length (strings_Map sanitizeRune (PkgPath d))
     = String.length (PkgPath d)
  /\ (forall i c, String.get i (PkgPath d) = Some c ->
        String.get i (strings_Map sanitizeRune (PkgPath d))
        = Some (if (Ascii.eqb c "\" || Ascii.eqb c "/" || Ascii.eqb c ".")%bool
                then "_"%char else c))
  /\ (forall c, c = "\"%char \/ c = "/"%char \/ c = "."%char ->
        containsByte c (strings_Map sanitizeRune (PkgPath d)) = false)
  /\ (TypeName ign (set_NotUnique d true)
      = TypeName ign (set_NotUnique d' true)
      <-> strings_Map sanitizeRune (PkgPath d)
          = strings_Map sanitizeRune (PkgPath d')).
Proof.
  intros Hd Hd' Hpath Hts Hid Hts' Hid' Hsame Hign Hp Hp'.
  assert (Hne : d <> d') by congruence.
  assert (HN : Name d = Name d')
    by (unfold Name; now rewrite Hts, Hts', Hid, Hid').
  assert (Hign' : ign (ast.Ident.Name id') = false) by congruence.
  rewrite (TypeName_marked ign d ts id), (TypeName_marked ign d' ts' id');
    auto.
  split; [now apply (markCollisions_shared ds d d')|].
  split; [apply (markCollisions_shared ds d' d); auto|].
  split; [reflexivity|]. split; [reflexivity|].
  split; [apply strings_Map_length|].
  split; [intros i c Hget; rewrite strings_Map_get, Hget; reflexivity|].
  split; [intros c Hc; now apply sanitized_clean|].
  split.
  - intros H. injection H as H. rewrite HN in H.
    now apply app_cancel_r in H.
  - intros ->. now rewrite HN.
Qed.

Lemma collision_promotion_witness :
  In (set_NotUnique Fixtures.petA true)
     (markCollisions [Fixtures.petA; Fixtures.petC])
  /\ TypeName ignoreNameOverride (set_NotUnique Fixtures.petA true)
     = Some "example_com_a_b.Pet"
  /\ TypeName ignoreNameOverride (set_NotUnique Fixtures.petC true)
     = Some "example_com_c.Pet"
  /\ TypeName ignoreNameOverride (set_NotUnique Fixtures.petA true)
     <> TypeName ignoreNameOverride (set_NotUnique Fixtures.petC true).
Proof.
  assert (Hneq : PkgPath Fixtures.petA <> PkgPath Fixtures.petC)
    by discriminate.
  destruct (collision_promotion ignoreNameOverride
              [Fixtures.petA; Fixtures.petC] Fixtures.petA Fixtures.petC
              _ _ _ _ (or_introl eq_refl) (or_intror (or_introl eq_refl))
              Hneq eq_refl eq_refl eq_refl eq_refl eq_refl eq_refl
              eq_refl eq_refl)
    as (H1 & _ & H3 & H4 & _ & _ & _ & H8).
  split; [exact H1|]. split; [exact H3|]. split; [exact H4|].
  intros E. apply H8 in E. discriminate E.
Defined.

(** C2 (as stated) fails: the units [example.com/a/b] and
    [example.com/a_b] both declare [Pet]; both declarations are marked,
    and both are named ["example_com_a_b.Pet"]. *)
Lemma sanitized_paths_coincide :
  PkgPath Fixtures.petA <> PkgPath Fixtures.petB
  /\ Name Fixtures.petA = Name Fixtures.petB
  /\ markCollisions [Fixtures.petA; Fixtures.petB]
     = [set_NotUnique Fixtures.petA true; set_NotUnique Fixtures.petB true]
  /\ TypeName ignoreNameOverride (set_NotUnique Fixtures.petA true)
     = Some "example_com_a_b.Pet"
  /\ TypeName ignoreNameOverride (set_NotUnique Fixtures.petB true)
     = Some "example_com_a_b.Pet".
Proof. repeat split. discriminate. Qed.

(** A third unit gets a name of its own when its sanitized path is. *)
Example three_units :
  List.map (TypeName ignoreNameOverride)
    (markCollisions [Fixtures.petA; Fixtures.petB; Fixtures.petC])
  = [Some "example_com_a_b.Pet"; Some "example_com_a_b.Pet";
     Some "example_com_c.Pet"].
Proof. reflexivity. Qed.

(** ** Declarations inside a routine body *)

(** C3: a declaration inside a routine body is named
    [unit.routine.ShortName], the unit being the sanitized path when the
    declaration is marked as colliding and the package name otherwise;
    that name differs from the name of every top-level declaration of the
    same short name (package names are identifiers and hold no dot), so
    an output keyed by canonical name holds both. *)
Theorem TypeName_scoped ign (t : TypeSpecDef) ts id f pkg fn fid :
  TypeSpec t = Some ts -> ast.TypeSpec.Name ts = Some id ->
  ign (ast.Ident.Name id) = false ->
  File t = Some f -> ast.File.Name f = Some pkg ->
  ParentSpec t = Some (ast.FuncDeclPtr (Some fn)) ->
  ast.FuncDecl.Name fn = Some fid ->
  TypeName ign t
  = Some ((if NotUnique t then strings_Map sanitizeRune (PkgPath t)
           else ast.Ident.Name pkg)
          +:+ "." +:+ ast.Ident.Name fid +:+ "." +:+ Name t)
  /\ forall t' : TypeSpecDef,
       Name t' = Name t -> ParentSpec t' = None ->
       (forall f' pkg', NotUnique t' = false -> File t' = Some f' ->
          ast.File.Name f' = Some pkg' ->
          containsByte "." (ast.Ident.Name pkg') = false) ->
       TypeName ign t' <> TypeName ign t
       /\ forall (out : gmap string Schema) n n' s s',
            TypeName ign t = Some n -> TypeName ign t' = Some n' ->
            <[n' := s']> (<[n := s]> out) !! n = Some s
            /\ <[n' := s']> (<[n := s]> out) !! n' = Some s'.
Proof.
  intros Hts Hid Hign Hf Hpkg Hp Hfid.
  assert (HN : Name t = ast.Ident.Name id)
    by (unfold Name; now rewrite Hts, Hid).
  set (u := if NotUnique t then strings_Map sanitizeRune (PkgPath t)
            else ast.Ident.Name pkg).
  assert (Hname : TypeName ign t
                  = Some (u +:+ "." +:+ ast.Ident.Name fid +:+ "." +:+ Name t)).
  { rewrite (TypeName_parts ign t ts id [u] [ast.Ident.Name fid]); auto.
    - now rewrite HN.
    - unfold unitPart, u. destruct (NotUnique t); [reflexivity|].
      rewrite Hf. simpl. now rewrite Hpkg.
    - unfold scopePart. rewrite Hp. simpl. now rewrite Hfid. }
  split; [exact Hname|].
  intros t' HN' Hp' Hdot.
  assert (Hdiff : TypeName ign t' <> TypeName ign t).
  { rewrite Hname. unfold TypeName.
    destruct (TypeSpec t') as [ts'|] eqn:Hts'; simpl; [|discriminate].
    destruct (ast.TypeSpec.Name ts') as [id'|] eqn:Hid'; simpl; [|discriminate].
    assert (E : ast.Ident.Name id' = Name t).
    { rewrite <- HN'. unfold Name. now rewrite Hts', Hid'. }
    rewrite E, HN, Hign, (scopePart_toplevel t' Hp'). unfold unitPart.
    destruct (NotUnique t') eqn:Hnu; simpl.
    - rewrite fullTypeName_2. intros H. injection H as H.
      rewrite <- (app_assoc_string u), <- (app_assoc_string (u +:+ ".")) in H.
      apply app_cancel_r in H.
      assert (Hc : containsByte "." (strings_Map sanitizeRune (PkgPath t'))
                   = false) by (apply sanitized_clean; auto).
      rewrite H, !containsByte_app in Hc. simpl in Hc.
      rewrite orb_true_r in Hc. discriminate.
    - destruct (File t') as [f'|] eqn:Hf'; simpl.
      + destruct (ast.File.Name f') as [pkg'|] eqn:Hpkg'; simpl; [|discriminate].
        rewrite fullTypeName_2. intros H. injection H as H.
        rewrite <- (app_assoc_string u), <- (app_assoc_string (u +:+ ".")) in H.
        apply app_cancel_r in H.
        specialize (Hdot f' pkg' eq_refl eq_refl Hpkg').
        rewrite H, !containsByte_app in Hdot. simpl in Hdot.
        rewrite orb_true_r in Hdot. discriminate.
      + rewrite fullTypeName_1. intros H. injection H as H.
        apply (f_equal String.length) in H. rewrite !length_app in H.
        simpl in H. lia. }
  split; [exact Hdiff|].
  intros out n n' s s' Hn Hn'.
  assert (Hnn : n' <> n) by congruence.
  split.
  - rewrite lookup_insert_ne by exact Hnn. apply lookup_insert_eq.
  - apply lookup_insert_eq.
Qed.

Lemma TypeName_scoped_witness :
  TypeName ignoreNameOverride Fixtures.responseInFun
  = Some "main.Fun.response"
  /\ TypeName ignoreNameOverride Fixtures.responseTop = Some "main.response"
  /\ TypeName ignoreNameOverride Fixtures.responseTop
     <> TypeName ignoreNameOverride Fixtures.responseInFun.
Proof.
  destruct (TypeName_scoped ignoreNameOverride Fixtures.responseInFun
              _ _ _ _ _ _ eq_refl eq_refl eq_refl eq_refl eq_refl eq_refl
              eq_refl) as [H1 H2].
  split; [exact H1|]. split; [reflexivity|].
  refine (proj1 (H2 Fixtures.responseTop eq_refl eq_refl _)).
  intros f' pkg' _ Hf' Hpkg'. injection Hf' as <-. injection Hpkg' as <-.
  reflexivity.
Defined.

(** ** Property maps *)

Lemma lookupProp_setProp (name : string) (s : Schema)
    (ps : list (string * Schema)) :
  lookupProp name (setProp name s ps) = Some s.
Proof.
  induction ps as [|[k v] ps IH]; simpl.
  - now rewrite String.eqb_refl.
  - destruct (String.eqb k name) eqn:E; simpl; rewrite E; auto.
Qed.

Lemma noSiblings_spec (f : CompositeField.t) :
  noSiblings (siblingsOf f) = true
  <-> CompositeField.documentation f = "" /\ CompositeField.readOnly f = false.
Proof.
  unfold noSiblings, siblingsOf. simpl.
  rewrite andb_true_iff, negb_true_iff, String.eqb_eq. reflexivity.
Qed.

(** ** The resolver *)

Section ResolverFacts.

Variable namingStrategy : string -> string.
Variable parseTypeExpr : string -> TypeExpr.
Variable registry : gmap string Declaration.
Variable overrides : gmap string string.

Abbreviation resolve' := (resolve namingStrategy parseTypeExpr registry overrides).
Abbreviation resolveStep' :=
  (resolveStep namingStrategy parseTypeExpr registry overrides).
Abbreviation emittedName' := (emittedName namingStrategy).

Lemma resolve_S (n : nat) (e : TypeExpr) :
  resolve' (S n) e = resolveStep' (resolve' n) e.
Proof. reflexivity. Qed.

Lemma resolveFields_cons rec fld rest acc out :
  resolveFields namingStrategy rec (fld :: rest) acc out
  = match resolveField namingStrategy rec acc fld out with
    | Done (acc', o) => resolveFields namingStrategy rec rest acc' o
    | Fatal e => Fatal e
    | Exhausted => Exhausted
    end.
Proof. reflexivity. Qed.

(** A declared composite is answered by a reference to its canonical
    name, on the first encounter and on every later one. *)
Lemma resolveDeclaration_composite rec (d : Declaration) fields out r out' :
  underlying d = Composite fields ->
  resolveDeclaration namingStrategy rec d out = Done (r, out') ->
  r = Some (RefSchema (canonicalName d)).
Proof.
  intros Hu. unfold resolveDeclaration. rewrite Hu.
  unfold bind, visited, store, ret.
  destruct (out !! canonicalName d).
  - intros H. now injection H as <- _.
  - destruct (resolveFields _ _ _ _ _) as [[a o]| |];
      [|discriminate..].
    intros H. now injection H as <- _.
Qed.

Lemma resolve_named_declared n name d out :
  overrides !! name = None -> registry !! name = Some d ->
  resolve' (S n) (NamedRef name) out
  = resolveDeclaration namingStrategy (resolve' n) d out.
Proof. intros Ho Hr. simpl. now rewrite Ho, Hr. Qed.

(** C5: a field, neither ignored nor embedded, whose type resolves to a
    reference becomes the bare property [$ref target] when it has neither
    documentation nor the read-only directive, and the wrapper
    [allOf: [$ref target]] with the description and the read-only flag on
    the wrapper when it has either; and a name registered as a composite
    resolves, whenever it resolves, to the reference to its canonical
    name. *)
Theorem named_field_bare_or_wrapped :
  (forall rec (f : CompositeField.t) ty target acc out out',
     CompositeField.ignore f = false ->
     CompositeField.inlineEmbed f = false ->
     rec ty out = Done (Some (RefSchema target), out') ->
     exists props req,
       resolveField namingStrategy rec acc (f, ty) out
       = Done ((props, req), out')
       /\ (CompositeField.documentation f = "" ->
           CompositeField.readOnly f = false ->
           lookupProp (emittedName' f) props = Some (RefSchema target))
       /\ (CompositeField.documentation f <> ""
           \/ CompositeField.readOnly f = true ->
           lookupProp (emittedName' f) props
           = Some (Wrapper {| description := CompositeField.documentation f;
                              readOnlyFlag := CompositeField.readOnly f |}
                           [RefSchema target])))
  /\ (forall n name d fields out r out',
        overrides !! name = None -> registry !! name = Some d ->
        underlying d = Composite fields ->
        resolve' (S n) (NamedRef name) out = Done (r, out') ->
        r = Some (RefSchema (canonicalName d))).
Proof.
  split.
  - intros rec f ty target acc out out' Hi He Hres.
    unfold resolveField. rewrite Hi, He. unfold bind.
    rewrite Hres. unfold ret. eexists _, _. split; [reflexivity|].
    simpl. rewrite lookupProp_setProp. unfold attachSiblings.
    split.
    + intros Hd Hro.
      now rewrite (proj2 (noSiblings_spec f) (conj Hd Hro)).
    + intros Hmeta.
      destruct (noSiblings (siblingsOf f)) eqn:E; [|reflexivity].
      apply noSiblings_spec in E. destruct E as [E1 E2].
      destruct Hmeta; congruence.
  - intros n name d fields out r out' Ho Hr Hu Hres.
    rewrite (resolve_named_declared n name d out Ho Hr) in Hres.
    exact (resolveDeclaration_composite _ d fields out r out' Hu Hres).
Qed.

(** C6: a pointer resolves exactly as its target does: with one unit
    of fuel more it returns the same outcome and the same output map,
    hence it has a result, or a fatal error, exactly when the target
    has it.  The required-property set only gathers the names of fields
    that carry the required directive: a pointer field without the
    directive adds none, and a composite whose only field is such a
    pointer has an empty required set. *)
Theorem pointer_transparent :
  (forall n t out, resolve' (S n) (PointerTo t) out = resolve' n t out)
  /\ (forall t out r,
        (exists n, resolve' n (PointerTo t) out = Done r)
        <-> (exists n, resolve' n t out = Done r))
  /\ (forall t out e,
        (exists n, resolve' n (PointerTo t) out = Fatal e)
        <-> (exists n, resolve' n t out = Fatal e))
  /\ (forall rec fields acc out ps req out',
        resolveFields namingStrategy rec fields acc out
        = Done ((ps, req), out') ->
        forall x, In x req ->
          In x (snd acc)
          \/ exists f ty, In (f, ty) fields
               /\ CompositeField.required f = true
               /\ emittedName' f = x)
  /\ (forall n f t out ps req out',
        CompositeField.required f = false ->
        resolve' (S n) (Composite [(f, PointerTo t)]) out
        = Done (Some (ObjectSchema ps req), out') ->
        req = []).
Proof.
  assert (Hfields : forall rec fields acc out ps req out',
        resolveFields namingStrategy rec fields acc out
        = Done ((ps, req), out') ->
        forall x, In x req ->
          In x (snd acc)
          \/ exists f ty, In (f, ty) fields
               /\ CompositeField.required f = true
               /\ emittedName' f = x).
  { intros rec fields. induction fields as [|[f ty] fields IH];
      intros acc out ps req out' H x Hx.
    - simpl in H. unfold ret in H. injection H as -> _. now left.
    - rewrite resolveFields_cons in H.
      destruct (resolveField namingStrategy rec acc (f, ty) out)
        as [[acc' o]| |] eqn:E; [|discriminate..].
      destruct (IH _ _ _ _ _ H x Hx) as [Hacc|(g & ty' & Hin & Hg)].
      + unfold resolveField in E.
        destruct (CompositeField.ignore f).
        { unfold ret in E. injection E as <- _. now left. }
        destruct (CompositeField.inlineEmbed f).
        { unfold bind in E.
          destruct (rec ty out) as [[[s|] o']| |]; try discriminate.
          - injection E as <- _. now left.
          - unfold ret in E. injection E as <- _. now left. }
        unfold bind in E.
        destruct (rec ty out) as [[[s|] o']| |]; try discriminate;
          unfold ret in E; injection E as <- _; [|now left].
        simpl in Hacc.
        destruct (CompositeField.required f) eqn:Hreq; [|now left].
        apply in_app_or in Hacc. destruct Hacc as [Hacc|[<-|[]]].
        * now left.
        * right. exists f, ty. simpl. auto.
      + right. exists g, ty'. simpl. auto. }
  split; [reflexivity|].
  split.
  { intros t out r. split; intros [n H].
    - destruct n as [|n]; [discriminate|]. now exists n.
    - now exists (S n). }
  split.
  { intros t out e. split; intros [n H].
    - destruct n as [|n]; [discriminate|]. now exists n.
    - now exists (S n). }
  split; [exact Hfields|].
  intros n f t out ps req out' Hreq H.
  rewrite resolve_S in H. unfold resolveStep, bind in H.
  destruct (resolveFields _ _ _ _ _) as [[[ps' req'] o]| |] eqn:E;
    [|discriminate..].
  unfold ret in H. simpl in H. injection H as <- <- <-.
  destruct req' as [|x req']; [reflexivity|].
  destruct (Hfields _ _ _ _ _ _ _ E x (or_introl eq_refl))
    as [[]|(g & ty & [Hin|[]] & Hg & _)].
  injection Hin as <- _. congruence.
Qed.

(** C9: a field that carries the ignore directive leaves no trace: the
    fields of a composite resolve, to the same property map, the same
    required set and the same output map, as they do with the ignored
    field struck out, whether or not the field is an embedded
    composite; so do an inline composite and a declared one. *)
Theorem ignored_field_absent rec (f : CompositeField.t) (ty : TypeExpr)
    (before after : list (CompositeField.t * TypeExpr)) :
  CompositeField.ignore f = true ->
  (forall acc out,
     resolveFields namingStrategy rec (before ++ (f, ty) :: after) acc out
     = resolveFields namingStrategy rec (before ++ after) acc out)
  /\ (forall out,
        resolveStep' rec (Composite (before ++ (f, ty) :: after)) out
        = resolveStep' rec (Composite (before ++ after)) out)
  /\ (forall t out,
        resolveDeclaration namingStrategy rec
          {| def := t; underlying := Composite (before ++ (f, ty) :: after) |}
          out
        = resolveDeclaration namingStrategy rec
            {| def := t; underlying := Composite (before ++ after) |} out).
Proof.
  intros Hi.
  assert (H : forall acc out,
     resolveFields namingStrategy rec (before ++ (f, ty) :: after) acc out
     = resolveFields namingStrategy rec (before ++ after) acc out).
  { induction before as [|fld before IH]; intros acc out.
    - change ([] ++ (f, ty) :: after)%list with ((f, ty) :: after).
      rewrite resolveFields_cons. unfold resolveField. now rewrite Hi.
    - change ((fld :: before) ++ (f, ty) :: after)%list
        with (fld :: (before ++ (f, ty) :: after))%list.
      change ((fld :: before) ++ after)%list
        with (fld :: (before ++ after))%list.
      rewrite !resolveFields_cons.
      destruct (resolveField namingStrategy rec acc fld out)
        as [[acc' o]| |]; auto. }
  split; [exact H|]. split.
  - intros out. unfold resolveStep, bind. now rewrite H.
  - intros t out. unfold resolveDeclaration. simpl. unfold bind.
    destruct (visited _ out) as [[[s|] o]| |]; try reflexivity.
    destruct (store _ _ o) as [[u o']| |]; try reflexivity.
    now rewrite H.
Qed.

End ResolverFacts.

(** ** Unresolved references *)

Section Unresolved.

Variable namingStrategy : string -> string.
Variable parseTypeExpr : string -> TypeExpr.
Variable registry : gmap string Declaration.
Variable overrides : gmap string string.

Abbreviation resolve'' :=
  (resolve namingStrategy parseTypeExpr registry overrides).

(** [rec] reports as unresolved only names that are neither registered
    nor overridden. *)
Variable rec : TypeExpr -> Pass (option Schema).
Hypothesis rec_sound : forall e out x,
  rec e out = Fatal (UnresolvedReference x) ->
  overrides !! x = None /\ registry !! x = None.

Lemma resolveField_sound acc fld out x :
  resolveField namingStrategy rec acc fld out
  = Fatal (UnresolvedReference x) ->
  overrides !! x = None /\ registry !! x = None.
Proof.
  destruct fld as [f ty]. unfold resolveField.
  destruct (CompositeField.ignore f); [discriminate|].
  destruct (CompositeField.inlineEmbed f); unfold bind;
    destruct (rec ty out) as [[[s|] o]|e|] eqn:E; try discriminate;
    intros H; injection H as ->; eauto.
Qed.

Lemma resolveFields_sound fields acc out x :
  resolveFields namingStrategy rec fields acc out
  = Fatal (UnresolvedReference x) ->
  overrides !! x = None /\ registry !! x = None.
Proof.
  revert acc out. induction fields as [|fld fields IH]; intros acc out.
  - discriminate.
  - rewrite resolveFields_cons.
    destruct (resolveField namingStrategy rec acc fld out)
      as [[acc' o]|e|] eqn:E; try discriminate.
    + apply IH.
    + intros H. injection H as ->. eauto using resolveField_sound.
Qed.

Lemma resolveDeclaration_sound d out x :
  resolveDeclaration namingStrategy rec d out
  = Fatal (UnresolvedReference x) ->
  overrides !! x = None /\ registry !! x = None.
Proof.
  unfold resolveDeclaration, bind at 1, visited.
  destruct (out !! canonicalName d); [discriminate|].
  assert (Hanswer : forall s o,
            answer (canonicalName d) s o <> Fatal (UnresolvedReference x)).
  { intros s o. unfold answer, bind, store, ret.
    destruct (ownsDefinition s); discriminate. }
  assert (Hother : forall e,
            match rec e out with
            | Done (Some s, o) => answer (canonicalName d) s o
            | Done (None, o) => ret None o
            | Fatal e' => Fatal e'
            | Exhausted => Exhausted
            end = Fatal (UnresolvedReference x) ->
            overrides !! x = None /\ registry !! x = None).
  { intros e. destruct (rec e out) as [[[s|] o]|e'|] eqn:E;
      try discriminate.
    - intros H. now apply Hanswer in H.
    - intros H. injection H as ->. eauto. }
  destruct (underlying d) eqn:Hu;
    try (unfold bind;
         match goal with
         | |- context [rec ?e out] =>
             intros H; apply (Hother e);
             destruct (rec e out) as [[[s|] o]|e'|]; exact H
         end).
  - intros H. now apply Hanswer in H.
  - unfold bind, store, ret.
    destruct (resolveFields _ _ _ _ _) as [[a o]|e|] eqn:E;
      try discriminate.
    intros H. injection H as ->. eauto using resolveFields_sound.
Qed.

Lemma resolveStep_sound e out x :
  resolveStep namingStrategy parseTypeExpr registry overrides rec e out
  = Fatal (UnresolvedReference x) ->
  overrides !! x = None /\ registry !! x = None.
Proof.
  destruct e as [k|name|t|t|v|fields| |]; simpl.
  - discriminate.
  - destruct (overrides !! name) as [repl|] eqn:Ho.
    + destruct (String.eqb repl ""); [discriminate | apply rec_sound].
    + destruct (registry !! name) as [d|] eqn:Hr.
      * apply resolveDeclaration_sound.
      * unfold fatal. intros H. injection H as <-. auto.
  - apply rec_sound.
  - unfold bind. destruct (rec t out) as [[r o]|e|] eqn:E;
      try discriminate.
    intros H. injection H as ->. eauto.
  - destruct v; try discriminate;
      unfold bind;
      match goal with
      | |- context [rec ?a out] =>
          destruct (rec a out) as [[r o]|e|] eqn:E; try discriminate;
          intros H; injection H as ->; eauto
      end.
  - unfold bind.
    destruct (resolveFields _ _ _ _ _) as [[a o]|e|] eqn:E;
      try discriminate.
    intros H. injection H as ->. eauto using resolveFields_sound.
  - discriminate.
  - discriminate.
Qed.

End Unresolved.

Section NamedResolution.

Variable namingStrategy : string -> string.
Variable parseTypeExpr : string -> TypeExpr.
Variable registry : gmap string Declaration.
Variable overrides : gmap string string.

Abbreviation resolve3 :=
  (resolve namingStrategy parseTypeExpr registry overrides).

Lemma resolve_sound n e out x :
  resolve3 n e out = Fatal (UnresolvedReference x) ->
  overrides !! x = None /\ registry !! x = None.
Proof.
  revert e out x. induction n as [|n IH]; intros e out x.
  - discriminate.
  - apply resolveStep_sound. exact IH.
Qed.

(** C7 (as amended): a named type expression whose name is neither
    registered nor a key of the Override Table fails, whatever the fuel,
    with the error that reports that name, ["cannot find type
    definition: "] followed by the name; conversely an error that
    reports a name as unresolved, from whatever expression, reports a
    name that is neither registered nor overridden, so resolving a name
    fails with the unresolved-reference error for that very name if and
    only if the name is neither registered nor overridden.  An override
    target with a replacement resolves as the replacement expression
    does, error included; with the empty marker it tells the caller to
    omit the property. *)
Theorem resolve_named (name : string) :
  (overrides !! name = None -> registry !! name = None ->
   forall n out,
     resolve3 (S n) (NamedRef name) out = Fatal (UnresolvedReference name))
  /\ Error_text (UnresolvedReference name)
     = "cannot find type definition: " +:+ name
  /\ (forall n e out x,
        resolve3 n e out = Fatal (UnresolvedReference x) ->
        overrides !! x = None /\ registry !! x = None)
  /\ ((exists n out,
         resolve3 n (NamedRef name) out = Fatal (UnresolvedReference name))
      <-> overrides !! name = None /\ registry !! name = None)
  /\ (forall replacement, overrides !! name = Some replacement ->
        replacement <> "" ->
        forall n out,
          resolve3 (S n) (NamedRef name) out
          = resolve3 n (parseTypeExpr replacement) out)
  /\ (overrides !! name = Some "" ->
      forall n out, resolve3 (S n) (NamedRef name) out = Done (None, out)).
Proof.
  assert (H1 : overrides !! name = None -> registry !! name = None ->
               forall n out, resolve3 (S n) (NamedRef name) out
                             = Fatal (UnresolvedReference name)).
  { intros Ho Hr n out. simpl. now rewrite Ho, Hr. }
  split; [exact H1|]. split; [reflexivity|].
  split; [exact resolve_sound|]. split.
  - split.
    + intros (n & out & H). exact (resolve_sound _ _ _ _ H).
    + intros [Ho Hr]. exists 1, ∅. now apply H1.
  - split.
    + intros replacement Ho Hne n out. simpl. rewrite Ho.
      destruct (String.eqb_spec replacement ""); [contradiction|reflexivity].
    + intros Ho n out. simpl. now rewrite Ho.
Qed.

End NamedResolution.

(** ** Enumerations *)

Lemma enumComments_lookup (vs : list EnumValue.t) (m : gmap string string)
    (k c : string) :
  enumComments vs m !! k = Some c ->
  m !! k = Some c
  \/ exists v, In v vs /\ EnumValue.key v = k /\ EnumValue.Comment v = c
               /\ c <> "".
Proof.
  revert m. induction vs as [|v vs IH]; intros m H; simpl in H.
  - now left.
  - apply IH in H. destruct H as [H|(w & Hin & Hw)].
    + unfold hasComment in H.
      destruct (String.eqb_spec (EnumValue.Comment v) "") as [E|E];
        simpl in H; [now left|].
      destruct (decide (EnumValue.key v = k)) as [Hk|Hk].
      * rewrite Hk, lookup_insert_eq in H. injection H as <-.
        right. exists v. simpl. auto.
      * rewrite lookup_insert_ne in H by exact Hk. now left.
    + right. exists w. simpl. auto.
Qed.

Lemma enumComments_dom (vs : list EnumValue.t) (m : gmap string string)
    (k : string) :
  is_Some (enumComments vs m !! k)
  <-> is_Some (m !! k)
      \/ exists v, In v vs /\ EnumValue.key v = k /\ hasComment v = true.
Proof.
  revert m. induction vs as [|v vs IH]; intros m; simpl.
  - split; [now left | intros [H|(v & [] & _)]; exact H].
  - rewrite IH. destruct (hasComment v) eqn:Hc.
    + destruct (decide (EnumValue.key v = k)) as [Hk|Hk].
      * rewrite Hk, lookup_insert_eq. split.
        -- intros _. right. exists v. auto.
        -- intros _. left. eauto.
      * rewrite lookup_insert_ne by exact Hk. split.
        -- intros [H|(w & Hin & Hw)]; [now left|].
           right. exists w. auto.
        -- intros [H|(w & [<-|Hin] & Hw)]; [now left| |].
           ++ destruct Hw. contradiction.
           ++ right. exists w. auto.
    + split.
      * intros [H|(w & Hin & Hw)]; [now left|]. right. exists w. auto.
      * intros [H|(w & [<-|Hin] & Hw)]; [now left| |].
        -- destruct Hw. congruence.
        -- right. exists w. auto.
Qed.

(** C8 (as amended): the enumeration metadata of a scalar type with
    constants lists the values in source order; when some constant is
    commented it carries a description list of the same length whose
    entry at each position is the comment of the constant at that
    position, empty where there is none, and a comment map whose keys are
    exactly the identifiers of commented constants, each bound to a
    non-empty comment of a constant of that identifier; when no constant
    is commented it carries neither. *)
Theorem enumMeta_parallel (v0 : EnumValue.t) (rest : list EnumValue.t) :
  exists m, enumMeta (v0 :: rest) = Some m
    /\ enum m = List.map EnumValue.Value (v0 :: rest)
    /\ (existsb hasComment (v0 :: rest) = true ->
        exists ds cm,
          descriptions m = Some ds /\ comments m = Some cm
          /\ List.length ds = List.length (enum m)
          /\ (forall i v, (v0 :: rest) !! i = Some v ->
                enum m !! i = Some (EnumValue.Value v)
                /\ ds !! i = Some (EnumValue.Comment v))
          /\ (forall k, is_Some (cm !! k)
                <-> exists v, In v (v0 :: rest) /\ EnumValue.key v = k
                              /\ EnumValue.Comment v <> "")
          /\ (forall k c, cm !! k = Some c ->
                exists v, In v (v0 :: rest) /\ EnumValue.key v = k
                          /\ EnumValue.Comment v = c /\ c <> ""))
    /\ (existsb hasComment (v0 :: rest) = false ->
        descriptions m = None /\ comments m = None).
Proof.
  set (vs := v0 :: rest). eexists. split; [reflexivity|].
  cbn [enum descriptions comments]. split; [reflexivity|]. split.
  - intros Hc. fold vs. rewrite Hc.
    exists (enumDescriptions vs), (enumComments vs ∅).
    split; [reflexivity|]. split; [reflexivity|]. split.
    { unfold enumDescriptions. now rewrite !length_map. }
    split.
    { intros i v Hv. unfold enumDescriptions.
      change (List.map EnumValue.Value vs) with (EnumValue.Value <$> vs).
      change (List.map EnumValue.Comment vs) with (EnumValue.Comment <$> vs).
      rewrite !list_lookup_fmap, Hv. split; reflexivity. }
    split.
    { intros k. rewrite enumComments_dom. split.
      - intros [[x Hx]|(v & Hin & Hk & Hv)];
          [rewrite lookup_empty in Hx; discriminate|].
        exists v. repeat split; auto.
        unfold hasComment in Hv. apply negb_true_iff in Hv.
        now apply String.eqb_neq in Hv.
      - intros (v & Hin & Hk & Hv). right. exists v. repeat split; auto.
        unfold hasComment. apply negb_true_iff. now apply String.eqb_neq. }
    intros k c Hk. apply enumComments_lookup in Hk.
    destruct Hk as [Hk|Hk]; [rewrite lookup_empty in Hk; discriminate|].
    exact Hk.
  - intros Hc. fold vs. rewrite Hc. split; reflexivity.
Qed.

(** ** The tests of the repository, replayed *)

(** [TestParser_RefWithOtherPropertiesIsWrappedInAllOf]. *)
Example Student_definition :
  definitionsOf (resolveIn Fixtures.teacherStudent ∅ 4 (NamedRef "Student") ∅)
    "Student"
  = Some (ObjectSchema
            [("name", ScalarSchema KString None);
             ("age", Annotated {| description := ""; readOnlyFlag := true |}
                       (ScalarSchema KInteger None));
             ("teacher", Wrapper {| description := ""; readOnlyFlag := true |}
                           [RefSchema "Teacher"]);
             ("otherTeacher", RefSchema "Teacher")] []).
Proof. vm_compute. reflexivity. Qed.

(** [TestParser_ParseStructPointerMembers]. *)
Example Parent_definition :
  definitionsOf (resolveIn Fixtures.childParent ∅ 4 (NamedRef "Parent") ∅)
    "api.Parent"
  = Some (ObjectSchema
            [("test1",
              Annotated {| description := "test1"; readOnlyFlag := false |}
                (ScalarSchema KString None));
             ("test2",
              Wrapper {| description := "test2"; readOnlyFlag := false |}
                [RefSchema "api.Child"])] []).
Proof. vm_compute. reflexivity. Qed.

(** [TestParseSwaggerignoreForEmbedded]: [Teacher] has [name] and no
    [childName]. *)
Example Teacher_definition :
  definitionsOf (resolveIn Fixtures.ignoredEmbedded ∅ 4 (NamedRef "Parent") ∅)
    "Teacher"
  = Some (ObjectSchema [("name", ScalarSchema KString None)] []).
Proof. vm_compute. reflexivity. Qed.

Lemma named_field_bare_or_wrapped_witness :
  exists props req out',
    resolveField Fixtures.lowerFirst (resolveIn Fixtures.teacherStudent ∅ 3)
      ([], []) (Fixtures.readonly (Fixtures.plain "Teacher"), NamedRef "Teacher")
      ∅
    = Done ((props, req), out')
    /\ lookupProp "teacher" props
       = Some (Wrapper {| description := ""; readOnlyFlag := true |}
                 [RefSchema "Teacher"]).
Proof.
  assert (Hres : resolveIn Fixtures.teacherStudent ∅ 3 (NamedRef "Teacher") ∅
                 = Done (Some (RefSchema "Teacher"),
                         <["Teacher" :=
                             ObjectSchema [("name", ScalarSchema KString None)]
                               []]> ∅))
    by (vm_compute; reflexivity).
  destruct (proj1 (named_field_bare_or_wrapped Fixtures.lowerFirst
                     Fixtures.parseTypeExpr Fixtures.teacherStudent ∅)
              (resolveIn Fixtures.teacherStudent ∅ 3)
              (Fixtures.readonly (Fixtures.plain "Teacher"))
              (NamedRef "Teacher") "Teacher" ([], []) ∅ _
              eq_refl eq_refl Hres)
    as (props & req & H & _ & Hw).
  exists props, req. eexists. split; [exact H|].
  apply Hw. right. reflexivity.
Defined.

Lemma ignored_field_absent_witness :
  resolveIn Fixtures.ignoredEmbedded ∅ 3
    (Composite [(Fixtures.plain "Name", Scalar KString);
                (Fixtures.ignored (Fixtures.embedded (Fixtures.plain "Child")),
                 NamedRef "Child")]) ∅
  = resolveIn Fixtures.ignoredEmbedded ∅ 3
      (Composite [(Fixtures.plain "Name", Scalar KString)]) ∅.
Proof.
  exact (proj1 (proj2
    (ignored_field_absent Fixtures.lowerFirst Fixtures.parseTypeExpr
       Fixtures.ignoredEmbedded ∅ (resolveIn Fixtures.ignoredEmbedded ∅ 2)
       (Fixtures.ignored (Fixtures.embedded (Fixtures.plain "Child")))
       (NamedRef "Child") [(Fixtures.plain "Name", Scalar KString)] []
       eq_refl)) ∅).
Defined.

(** Without the ignore directive the embedded [Child] promotes
    [childName]. *)
Example embedded_promotes :
  definitionsOf
    (resolveIn Fixtures.ignoredEmbedded ∅ 4
       (Composite [(Fixtures.plain "Name", Scalar KString);
                   (Fixtures.embedded (Fixtures.plain "Child"),
                    NamedRef "Child")]) ∅) "Student"
  = Some (ObjectSchema [("childName", ScalarSchema KString None)] [])
  /\ match resolveIn Fixtures.ignoredEmbedded ∅ 4
             (Composite [(Fixtures.plain "Name", Scalar KString);
                         (Fixtures.embedded (Fixtures.plain "Child"),
                          NamedRef "Child")]) ∅ with
     | Done (s, _) =>
         s = Some (ObjectSchema [("name", ScalarSchema KString None);
                                 ("childName", ScalarSchema KString None)] [])
     | _ => False
     end.
Proof. split; vm_compute; reflexivity. Qed.

(** [TestOverrides_getTypeSchema]. *)
Lemma resolve_named_witness :
  resolveIn ∅ Fixtures.sqlOverrides 1 (NamedRef "sql.NullInt64") ∅
  = Fatal (UnresolvedReference "sql.NullInt64")
  /\ Error_text (UnresolvedReference "sql.NullInt64")
     = "cannot find type definition: sql.NullInt64"
  /\ resolveIn ∅ Fixtures.sqlOverrides 2 (NamedRef "sql.NullString") ∅
     = Done (Some (ScalarSchema KString None), ∅).
Proof.
  destruct (resolve_named Fixtures.lowerFirst Fixtures.parseTypeExpr ∅
              Fixtures.sqlOverrides "sql.NullInt64")
    as (H1 & H2 & _).
  assert (Ho : Fixtures.sqlOverrides !! "sql.NullInt64" = None)
    by (vm_compute; reflexivity).
  assert (Ho' : Fixtures.sqlOverrides !! "sql.NullString" = Some "string")
    by (vm_compute; reflexivity).
  split; [exact (H1 Ho (lookup_empty _) 0 ∅)|].
  split; [exact H2|].
  destruct (resolve_named Fixtures.lowerFirst Fixtures.parseTypeExpr ∅
              Fixtures.sqlOverrides "sql.NullString")
    as (_ & _ & _ & _ & H5 & _).
  rewrite (H5 "string" Ho' ltac:(discriminate) 1 ∅). reflexivity.
Defined.

(** C7 (as stated) fails in its only-if half: [model.Test] is a
    registered declaration and resolving it fails, its type being a
    function type ([TestParser_ParseDefinition] expects an error there);
    [foo] is a key of the Override Table of [TestSetOverrides] and
    resolving it fails, its replacement [bar] being unknown. *)
Lemma found_or_overridden_can_fail :
  is_Some (Fixtures.funcTyped !! "model.Test")
  /\ resolveIn Fixtures.funcTyped ∅ 2 (NamedRef "model.Test") ∅
     = Fatal InvalidTypeShape
  /\ resolveIn Fixtures.funcTyped ∅ 9 (NamedRef "model.Test") ∅
     = Fatal InvalidTypeShape
  /\ Fixtures.fooOverrides !! "foo" = Some "bar"
  /\ resolveIn ∅ Fixtures.fooOverrides 2 (NamedRef "foo") ∅
     = Fatal (UnresolvedReference "bar")
  /\ resolveIn ∅ Fixtures.fooOverrides 9 (NamedRef "foo") ∅
     = Fatal (UnresolvedReference "bar").
Proof.
  split; [vm_compute; eauto|].
  repeat split; vm_compute; reflexivity.
Qed.

(** C8 (as stated) fails: [types.Sex] has the constants [Male] and
    [Female], neither commented; its schema lists the two values and has
    no description list and no comment map, as in the expected document
    of the enums test data. *)
Lemma uncommented_enum_has_no_descriptions :
  exists m, enumMeta Fixtures.sexConstants = Some m
    /\ enum m = [EnumValue.LInteger 77; EnumValue.LInteger 70]
    /\ varnames m = ["Male"; "Female"]
    /\ descriptions m = None
    /\ comments m = None.
Proof. eexists. repeat split. Qed.

(** [types.Class] in the expected document of the enums test data. *)
Example Class_enum :
  exists m cm, enumMeta Fixtures.classConstants = Some m
    /\ enum m = List.map EnumValue.LInteger [-1; 1; 2; 3; 4; 5]%Z
    /\ varnames m = ["None"; "A"; "B"; "C"; "D"; "F"]
    /\ descriptions m = Some [""; "AAA"; "BBB"; ""; ""; ""]
    /\ comments m = Some cm
    /\ map_to_list cm = [("A", "AAA"); ("B", "BBB")].
Proof. eexists _, _. repeat split. Qed.

(** The enum-emission property of section 8. *)
Example ABC_enum :
  exists m cm, enumMeta Fixtures.abcConstants = Some m
    /\ enum m = List.map EnumValue.LInteger [1; 2; 3]%Z
    /\ descriptions m = Some ["first"; ""; "third"]
    /\ comments m = Some cm
    /\ cm !! "A" = Some "first" /\ cm !! "B" = None
    /\ cm !! "C" = Some "third".
Proof. eexists _, _. repeat split. Qed.

(** [TestParser_ParseStructMapMember]: a declared map is a definition of
    its own and a documented field of that type wraps the reference. *)
Example MapMembers_definitions :
  definitionsOf (resolveIn Fixtures.mapMembers ∅ 5 (NamedRef "Parent") ∅)
    "api.MyMapType"
  = Some (MapSchema (Some (ScalarSchema KString None)))
  /\ definitionsOf (resolveIn Fixtures.mapMembers ∅ 5 (NamedRef "Parent") ∅)
       "api.Parent"
     = Some (ObjectSchema
               [("test1", Annotated (mkSiblingMeta "test1" false)
                            (MapSchema None));
                ("test2", Annotated (mkSiblingMeta "test2" false)
                            (MapSchema (Some (ScalarSchema KString None))));
                ("test3", Annotated (mkSiblingMeta "test3" false)
                            (MapSchema (Some (ScalarSchema KString None))));
                ("test4", Annotated (mkSiblingMeta "test4" false)
                            (MapSchema (Some (RefSchema "api.Child"))));
                ("test5", Annotated (mkSiblingMeta "test5" false)
                            (MapSchema (Some (RefSchema "api.Child"))));
                ("test6", Wrapper (mkSiblingMeta "test6" false)
                            [RefSchema "api.MyMapType"]);
                ("test7", Annotated (mkSiblingMeta "test7" false)
                            (ArraySchema (RefSchema "api.Child")));
                ("test8", Annotated (mkSiblingMeta "test8" false)
                            (ArraySchema (RefSchema "api.Child")));
                ("test9", Annotated (mkSiblingMeta "test9" false)
                            (ArraySchema
                               (MapSchema
                                  (Some (ScalarSchema KString None)))))]
               []).
Proof. split; vm_compute; reflexivity. Qed.

(** The enums test data: [types.Person] points to [types.Class] and
    [types.Sex], which are definitions carrying their constants. *)
Example Person_definitions :
  definitionsOf (resolveIn Fixtures.person ∅ 5 (NamedRef "Person") ∅)
    "types.Person"
  = Some (ObjectSchema [("name", ScalarSchema KString None);
                        ("class", RefSchema "types.Class");
                        ("sex", RefSchema "types.Sex")] [])
  /\ definitionsOf (resolveIn Fixtures.person ∅ 5 (NamedRef "Person") ∅)
       "types.Class"
     = Some (ScalarSchema KInteger (enumMeta Fixtures.classConstants))
  /\ definitionsOf (resolveIn Fixtures.person ∅ 5 (NamedRef "Person") ∅)
       "types.Sex"
     = Some (ScalarSchema KInteger (enumMeta Fixtures.sexConstants)).
Proof. repeat split; vm_compute; reflexivity. Qed.

(** * Further properties of [types.go] *)

(** ** Qualified names and their parts *)

Lemma containsByte_String (c x : ascii) (s : string) :
  containsByte c (String x s) = Ascii.eqb x c || containsByte c s.
Proof. reflexivity. Qed.

Lemma app_nil_string (s : string) : "" +:+ s = s.
Proof. reflexivity. Qed.

Lemma dot_app (s : string) : "." +:+ s = String "."%char s.
Proof. reflexivity. Qed.

(** Two strings cut at their first dot agree part by part. *)
Lemma split_first_dot (a a' r r' : string) :
  containsByte "." a = false -> containsByte "." a' = false ->
  a +:+ "." +:+ r = a' +:+ "." +:+ r' -> a = a' /\ r = r'.
Proof.
  rewrite !dot_app.
  revert a'. induction a as [|c a IH]; intros [|c' a'] Ha Ha' H;
    rewrite ?app_String, ?app_nil_string in H.
  - injection H as H. auto.
  - injection H as <- _.
    rewrite containsByte_String in Ha'. discriminate.
  - injection H as -> _.
    rewrite containsByte_String in Ha. discriminate.
  - injection H as <- H.
    rewrite containsByte_String in Ha, Ha'.
    apply orb_false_elim in Ha as [_ Ha]. apply orb_false_elim in Ha' as [_ Ha'].
    destruct (IH a' Ha Ha' H) as [-> ->]. auto.
Qed.

(** Two strings cut at their last dot agree part by part. *)
Lemma split_last_dot (p p' n n' : string) :
  containsByte "." n = false -> containsByte "." n' = false ->
  p +:+ "." +:+ n = p' +:+ "." +:+ n' -> p = p' /\ n = n'.
Proof.
  rewrite !dot_app.
  intros Hn Hn'. revert p'. induction p as [|c p IH]; intros [|c' p'] H;
    rewrite ?app_String, ?app_nil_string in H.
  - injection H as H. auto.
  - injection H as _ H.
    rewrite H, containsByte_app in Hn. simpl in Hn.
    rewrite orb_true_r in Hn. discriminate.
  - injection H as _ H.
    rewrite <- H, containsByte_app in Hn'. simpl in Hn'.
    rewrite orb_true_r in Hn'. discriminate.
  - injection H as <- H.
    destruct (IH p' H) as [-> ->]. auto.
Qed.

Lemma fullTypeName_cons (a b : string) (l : list string) :
  fullTypeName (a :: b :: l) = a +:+ "." +:+ fullTypeName (b :: l).
Proof. reflexivity. Qed.

(** Joining with dots loses nothing when no part holds a dot. *)
Lemma fullTypeName_inj (l l' : list string) :
  l <> [] -> l' <> [] ->
  Forall (fun s => containsByte "." s = false) l ->
  Forall (fun s => containsByte "." s = false) l' ->
  fullTypeName l = fullTypeName l' -> l = l'.
Proof.
  revert l'. induction l as [|a l IH]; intros l' Hl Hl' Hc Hc' H;
    [congruence|].
  destruct l' as [|a' l']; [congruence|].
  inversion Hc as [|? ? Ha Hcl]; inversion Hc' as [|? ? Ha' Hcl']; subst.
  destruct l as [|b l], l' as [|b' l'].
  - rewrite !fullTypeName_1 in H. now subst.
  - rewrite fullTypeName_1, fullTypeName_cons in H.
    rewrite H, containsByte_app in Ha. simpl in Ha.
    rewrite orb_true_r in Ha. discriminate.
  - rewrite fullTypeName_1, fullTypeName_cons in H.
    rewrite <- H, containsByte_app in Ha'. simpl in Ha'.
    rewrite orb_true_r in Ha'. discriminate.
  - rewrite !fullTypeName_cons in H.
    destruct (split_first_dot _ _ _ _ Ha Ha' H) as [-> H'].
    f_equal. apply IH; auto; discriminate.
Qed.

(** X1: [TypeName] panics in exactly these cases: the TypeSpec or its
    Name node is nil; the name is exempt and empty, so that [Name[1:]] is
    out of range; or the name is not exempt and either the declaration is
    unmarked with a file whose Name node is nil, or its parent is a
    function declaration whose Name node is nil.  A marked declaration
    never reads its file. *)
Theorem TypeName_panics_iff ign (t : TypeSpecDef) :
  TypeName ign t = None
  <-> TypeSpec t = None
      \/ (exists ts, TypeSpec t = Some ts /\ ast.TypeSpec.Name ts = None)
      \/ (exists ts id,
            TypeSpec t = Some ts /\ ast.TypeSpec.Name ts = Some id
            /\ ((ign (ast.Ident.Name id) = true /\ ast.Ident.Name id = "")
                \/ (ign (ast.Ident.Name id) = false
                    /\ ((NotUnique t = false
                         /\ exists f, File t = Some f
                                      /\ ast.File.Name f = None)
                        \/ exists fn,
                             ParentSpec t = Some (ast.FuncDeclPtr (Some fn))
                             /\ ast.FuncDecl.Name fn = None)))).
Proof.
  unfold TypeName, unitPart, scopePart.
  destruct t as [f ts e pp ps sn nu]; simpl.
  destruct ts as [[nm cm]|]; simpl; [|tauto].
  destruct nm as [[name]|]; simpl.
  2: { split; [intros _|reflexivity]. right; left. eexists. split; reflexivity. }
  assert (Hex : forall P : ast.TypeSpec.t -> ast.Ident.t -> Prop,
            P (ast.TypeSpec.mk (Some (ast.Ident.mk name)) cm)
              (ast.Ident.mk name) ->
            exists ts id,
              Some (ast.TypeSpec.mk (Some (ast.Ident.mk name)) cm) = Some ts
              /\ ast.TypeSpec.Name ts = Some id /\ P ts id).
  { intros P HP. eexists _, _. split; [reflexivity|]. split; [reflexivity|].
    exact HP. }
  assert (Hin : forall P : ast.TypeSpec.t -> ast.Ident.t -> Prop,
            (exists ts id,
               Some (ast.TypeSpec.mk (Some (ast.Ident.mk name)) cm) = Some ts
               /\ ast.TypeSpec.Name ts = Some id /\ P ts id) ->
            P (ast.TypeSpec.mk (Some (ast.Ident.mk name)) cm)
              (ast.Ident.mk name)).
  { intros P (ts & id & H1 & H2 & H3). injection H1 as <-. simpl in H2.
    injection H2 as <-. exact H3. }
  split.
  - intros H. right; right.
    apply (Hex (fun _ id =>
             (ign (ast.Ident.Name id) = true /\ ast.Ident.Name id = "")
             \/ (ign (ast.Ident.Name id) = false
                 /\ ((nu = false
                      /\ exists f0, f = Some f0 /\ ast.File.Name f0 = None)
                     \/ exists fn,
                          ps = Some (ast.FuncDeclPtr (Some fn))
                          /\ ast.FuncDecl.Name fn = None)))).
    simpl. destruct (ign name) eqn:Hign.
    + left. split; [reflexivity|]. destruct name; [reflexivity|discriminate].
    + right. split; [reflexivity|].
      destruct nu; simpl in H.
      * right. destruct ps as [[[[[fid|]]|]| |]|]; simpl in H; try discriminate.
        eexists. split; reflexivity.
      * destruct f as [[[pkg|]]|]; simpl in H.
        -- right. destruct ps as [[[[[fid|]]|]| |]|]; simpl in H;
             try discriminate.
           eexists. split; reflexivity.
        -- left. split; [reflexivity|]. eexists. split; reflexivity.
        -- right. destruct ps as [[[[[fid|]]|]| |]|]; simpl in H;
             try discriminate.
           eexists. split; reflexivity.
  - intros [H|[(ts & H & H')|H]]; [discriminate| |].
    { injection H as <-. discriminate H'. }
    apply (Hin (fun _ id =>
             (ign (ast.Ident.Name id) = true /\ ast.Ident.Name id = "")
             \/ (ign (ast.Ident.Name id) = false
                 /\ ((nu = false
                      /\ exists f0, f = Some f0 /\ ast.File.Name f0 = None)
                     \/ exists fn,
                          ps = Some (ast.FuncDeclPtr (Some fn))
                          /\ ast.FuncDecl.Name fn = None)))) in H.
    simpl in H.
    destruct H as [[Hign ->]|[Hign [[-> (f0 & -> & Hf)]|(fn & -> & Hfn)]]];
      rewrite Hign.
    + reflexivity.
    + simpl. now rewrite Hf.
    + destruct nu; simpl.
      * now rewrite Hfn.
      * destruct f as [f0|]; simpl.
        -- destruct (ast.File.Name f0); simpl; [now rewrite Hfn|reflexivity].
        -- now rewrite Hfn.
Qed.

(** X2: an exempt name is never qualified: [TypeName] is the name without
    its first byte whatever the collision mark, the file and the scope
    are, so two declarations with the same exempt name get the same type
    name wherever they are declared. *)
Theorem TypeName_exempt_unqualified ign (t t' : TypeSpecDef) ts ts' id id' c rest :
  TypeSpec t = Some ts -> ast.TypeSpec.Name ts = Some id ->
  TypeSpec t' = Some ts' -> ast.TypeSpec.Name ts' = Some id' ->
  ast.Ident.Name id = String c rest -> ast.Ident.Name id' = String c rest ->
  ign (String c rest) = true ->
  TypeName ign t = Some rest /\ TypeName ign t' = Some rest.
Proof.
  intros Hts Hid Hts' Hid' Hn Hn' Hign. unfold TypeName.
  rewrite Hts, Hts'. simpl. rewrite Hid, Hid'. simpl.
  rewrite Hn, Hn', Hign. auto.
Qed.

Lemma TypeName_exempt_unqualified_witness :
  TypeName ignoreNameOverride (Fixtures.topLevel "api" "api" "$Pet" [])
  = Some "Pet"
  /\ TypeName ignoreNameOverride
       (set_NotUnique (Fixtures.scoped "x/y" "y" "Fun" "$Pet") true)
     = Some "Pet".
Proof.
  exact (TypeName_exempt_unqualified ignoreNameOverride
           (Fixtures.topLevel "api" "api" "$Pet" [])
           (set_NotUnique (Fixtures.scoped "x/y" "y" "Fun" "$Pet") true)
           _ _ _ _ "$"%char "Pet" eq_refl eq_refl eq_refl eq_refl
           eq_refl eq_refl eq_refl).
Defined.

(** X3: [SetSchemaName] writes the field [SchemaName] and nothing else,
    does not read the old schema name, and is idempotent; the type name of
    the declaration is the same before and after. *)
Theorem SetSchemaName_frame ign nov (t t' : TypeSpecDef) :
  SetSchemaName ign nov t = Some t' ->
  t' = set_SchemaName t (SchemaName t')
  /\ SetSchemaName ign nov t' = Some t'
  /\ TypeName ign t' = TypeName ign t
  /\ forall s, SetSchemaName ign nov (set_SchemaName t s) = Some t'.
Proof.
  intros H.
  assert (Hx : exists x, t' = set_SchemaName t x).
  { unfold SetSchemaName in H.
    destruct (Alias nov t) as [alias|]; simpl in H; [|discriminate].
    destruct (negb (alias =? "")%string); [injection H as <-; eauto|].
    destruct (TypeName ign t) as [n|]; simpl in H; [|discriminate].
    injection H as <-. eauto. }
  destruct Hx as [x ->].
  assert (Hs : forall s, SetSchemaName ign nov (set_SchemaName t s)
                         = SetSchemaName ign nov t) by reflexivity.
  split; [reflexivity|]. split; [now rewrite Hs|].
  split; [reflexivity|]. intros s. now rewrite Hs.
Qed.

Lemma SetSchemaName_frame_witness :
  SetSchemaName ignoreNameOverride nameOverride
    (set_SchemaName Fixtures.pet3 "stale")
  = Some (set_SchemaName Fixtures.pet3 "api.Pet3")
  /\ SetSchemaName ignoreNameOverride nameOverride
       (set_SchemaName Fixtures.pet3 "api.Pet3")
     = Some (set_SchemaName Fixtures.pet3 "api.Pet3").
Proof.
  destruct (SetSchemaName_frame ignoreNameOverride nameOverride
              Fixtures.pet3 (set_SchemaName Fixtures.pet3 "api.Pet3")
              eq_refl) as (_ & H2 & _ & H4).
  split; [exact (H4 "stale") | exact H2].
Defined.

(** X4: [SetSchemaName] panics exactly when the TypeSpec is nil, or when
    there is no alias and [TypeName] panics; with an alias it returns even
    where [TypeName] would panic. *)
Theorem SetSchemaName_panics_iff ign nov (t : TypeSpecDef) :
  SetSchemaName ign nov t = None
  <-> TypeSpec t = None
      \/ (exists ts, TypeSpec t = Some ts
                     /\ nov (ast.TypeSpec.Comment ts) = ""
                     /\ TypeName ign t = None).
Proof.
  unfold SetSchemaName, Alias.
  destruct (TypeSpec t) as [ts|] eqn:Hts; simpl; [|naive_solver].
  destruct (String.eqb_spec (nov (ast.TypeSpec.Comment ts)) "") as [E|E];
    simpl.
  - destruct (TypeName ign t) as [n|]; simpl.
    + split; [discriminate|]. intros [H|(ts' & _ & _ & H)]; discriminate.
    + split; [intros _|reflexivity]. right. exists ts. auto.
  - split; [discriminate|].
    intros [H|(ts' & H & H' & _)]; [discriminate|].
    injection H as <-. contradiction.
Qed.

(** A declaration whose Name node is nil and that has an alias. *)
Example SetSchemaName_alias_rescues :
  TypeName ignoreNameOverride
    (mkTypeSpecDef None
       (Some (ast.TypeSpec.mk None
                (Some (ast.CommentGroup.mk [ast.Comment.mk "//@name Pupil"]))))
       [] "api" None "" false) = None
  /\ SchemaName <$>
       SetSchemaName ignoreNameOverride nameOverride
         (mkTypeSpecDef None
            (Some (ast.TypeSpec.mk None
                     (Some (ast.CommentGroup.mk
                              [ast.Comment.mk "//@name Pupil"]))))
            [] "api" None "" false) = Some "Pupil".
Proof. split; reflexivity. Qed.

(** X5: [FullPath] always ends with [Name] after a dot, and is a key:
    declarations whose names hold no dot have the same full path exactly
    when they have the same package path and the same name. *)
Theorem FullPath_key (t t' : TypeSpecDef) :
  containsByte "." (Name t) = false ->
  containsByte "." (Name t') = false ->
  (FullPath t = FullPath t' <-> PkgPath t = PkgPath t' /\ Name t = Name t').
Proof.
  intros Hn Hn'. unfold FullPath. split.
  - intros H. exact (split_last_dot _ _ _ _ Hn Hn' H).
  - intros [-> ->]. reflexivity.
Qed.

Lemma FullPath_key_witness :
  FullPath Fixtures.petA <> FullPath Fixtures.petB.
Proof.
  intros H.
  apply (FullPath_key Fixtures.petA Fixtures.petB eq_refl eq_refl) in H.
  destruct H as [H _]. discriminate H.
Defined.

(** X6: the type name determines its parts.  For two declarations with
    non-exempt names whose unit (sanitized path or package name), routine
    and short name hold no dot, the type names are equal exactly when the
    units, the enclosing routines (or their absence) and the short names
    are. *)
Theorem TypeName_injective ign (t t' : TypeSpecDef) ts ts' id id' u u' p p' :
  TypeSpec t = Some ts -> ast.TypeSpec.Name ts = Some id ->
  TypeSpec t' = Some ts' -> ast.TypeSpec.Name ts' = Some id' ->
  ign (ast.Ident.Name id) = false -> ign (ast.Ident.Name id') = false ->
  unitPart t = Some [u] -> unitPart t' = Some [u'] ->
  scopePart t = Some p -> scopePart t' = Some p' ->
  Forall (fun s => containsByte "." s = false)
         ([u] ++ p ++ [ast.Ident.Name id])%list ->
  Forall (fun s => containsByte "." s = false)
         ([u'] ++ p' ++ [ast.Ident.Name id'])%list ->
  (TypeName ign t = TypeName ign t'
   <-> u = u' /\ p = p' /\ ast.Ident.Name id = ast.Ident.Name id').
Proof.
  intros Hts Hid Hts' Hid' Hi Hi' Hu Hu' Hp Hp' Hc Hc'.
  rewrite (TypeName_parts ign t ts id [u] p Hts Hid Hi Hu Hp).
  rewrite (TypeName_parts ign t' ts' id' [u'] p' Hts' Hid' Hi' Hu' Hp').
  split.
  - intros H. injection H as H.
    apply fullTypeName_inj in H; auto; try discriminate.
    simpl in H. injection H as -> H.
    apply app_inj_tail in H. destruct H as [-> ->]. auto.
  - intros (-> & -> & ->). reflexivity.
Qed.

Lemma TypeName_injective_witness :
  TypeName ignoreNameOverride Fixtures.responseInFun
  <> TypeName ignoreNameOverride Fixtures.responseTop.
Proof.
  intros H.
  apply (TypeName_injective ignoreNameOverride Fixtures.responseInFun
           Fixtures.responseTop _ _ _ _ "main" "main" ["Fun"] []
           eq_refl eq_refl eq_refl eq_refl eq_refl eq_refl eq_refl eq_refl
           eq_refl eq_refl) in H.
  - destruct H as (_ & H & _). discriminate H.
  - repeat constructor.
  - repeat constructor.
Defined.

(** X7: for a marked top-level declaration the type name is the full
    path exactly when the package path holds neither separator nor dot;
    sanitizing leaves such a path alone and changes every other one. *)
Theorem TypeName_marked_is_FullPath_iff ign (t : TypeSpecDef) ts id :
  TypeSpec t = Some ts -> ast.TypeSpec.Name ts = Some id ->
  ign (ast.Ident.Name id) = false -> ParentSpec t = None ->
  (TypeName ign (set_NotUnique t true) = Some (FullPath t)
   <-> containsByte "\" (PkgPath t) = false
       /\ containsByte "/" (PkgPath t) = false
       /\ containsByte "." (PkgPath t) = false).
Proof.
  intros Hts Hid Hign Hp.
  rewrite (TypeName_marked ign t ts id Hts Hid Hign Hp). unfold FullPath.
  assert (Hfix : forall s,
             strings_Map sanitizeRune s = s
             <-> containsByte "\" s = false /\ containsByte "/" s = false
                 /\ containsByte "." s = false).
  { induction s as [|c s IH]; simpl; [tauto|].
    split.
    - intros H. injection H as Hc Hs. apply IH in Hs.
      destruct Hs as (H1 & H2 & H3). rewrite H1, H2, H3, !orb_false_r.
      unfold sanitizeRune in Hc.
      destruct (Ascii.eqb c "\") eqn:E1; simpl in Hc;
        [apply Ascii.eqb_eq in E1; congruence|].
      destruct (Ascii.eqb c "/") eqn:E2; simpl in Hc;
        [apply Ascii.eqb_eq in E2; congruence|].
      destruct (Ascii.eqb c ".") eqn:E3; simpl in Hc;
        [apply Ascii.eqb_eq in E3; congruence|].
      auto.
    - intros (H1 & H2 & H3).
      apply orb_false_elim in H1 as [E1 H1].
      apply orb_false_elim in H2 as [E2 H2].
      apply orb_false_elim in H3 as [E3 H3].
      unfold sanitizeRune. rewrite E1, E2, E3. simpl. f_equal.
      apply IH. auto. }
  rewrite <- Hfix. split.
  - intros H. injection H as H. now apply app_cancel_r in H.
  - intros ->. reflexivity.
Qed.

Lemma TypeName_marked_is_FullPath_iff_witness :
  TypeName ignoreNameOverride
    (set_NotUnique (Fixtures.topLevel "api" "api" "Pet" []) true)
  = Some (FullPath (Fixtures.topLevel "api" "api" "Pet" []))
  /\ TypeName ignoreNameOverride (set_NotUnique Fixtures.petA true)
     <> Some (FullPath Fixtures.petA).
Proof.
  split.
  - apply (TypeName_marked_is_FullPath_iff ignoreNameOverride
             (Fixtures.topLevel "api" "api" "Pet" []) _ _
             eq_refl eq_refl eq_refl eq_refl).
    repeat split.
  - intros H.
    apply (TypeName_marked_is_FullPath_iff ignoreNameOverride Fixtures.petA
             _ _ eq_refl eq_refl eq_refl eq_refl) in H.
    destruct H as (_ & H & _). discriminate H.
Defined.

(** * Properties of [cmd/swag/main.go] *)

(** ** [strings.Split] on a one-byte separator *)

Lemma Split_nonempty (s : string) (sep : ascii) : strings_Split s sep <> [].
Proof.
  destruct s as [|c s]; simpl; [discriminate|].
  destruct (Ascii.eqb c sep); [discriminate|].
  destruct (strings_Split s sep); discriminate.
Qed.

Lemma concat_cons2 (sep x y : string) (l : list string) :
  String.concat sep (x :: y :: l) = x +:+ sep +:+ String.concat sep (y :: l).
Proof. reflexivity. Qed.

(** Joining the parts with the separator gives the string back. *)
Lemma Split_join (s : string) (sep : ascii) :
  String.concat (String sep "") (strings_Split s sep) = s.
Proof.
  induction s as [|c s IH]; [reflexivity|]. simpl.
  pose proof (Split_nonempty s sep) as Hne.
  destruct (Ascii.eqb_spec c sep) as [->|Hc];
    destruct (strings_Split s sep) as [|h t]; try congruence.
  - rewrite concat_cons2, IH. reflexivity.
  - destruct t as [|h' t].
    + simpl in *. now rewrite IH.
    + rewrite concat_cons2 in *. rewrite app_String. now rewrite IH.
Qed.

(** No part holds the separator. *)
Lemma Split_parts_clean (s : string) (sep : ascii) :
  Forall (fun part => containsByte sep part = false) (strings_Split s sep).
Proof.
  induction s as [|c s IH]; simpl; [repeat constructor|].
  pose proof (Split_nonempty s sep) as Hne.
  destruct (Ascii.eqb c sep) eqn:Hc.
  - constructor; [reflexivity | exact IH].
  - destruct (strings_Split s sep) as [|h t]; [congruence|].
    inversion IH as [|? ? Hh Ht]; subst. constructor; [|exact Ht].
    simpl. now rewrite Hc, Hh.
Qed.

(** A string without the separator is its own single part; a separator
    after a part without it starts the next part. *)
Lemma Split_clean (s : string) (sep : ascii) :
  containsByte sep s = false -> strings_Split s sep = [s].
Proof.
  induction s as [|c s IH]; simpl; [reflexivity|].
  intros H. apply orb_false_elim in H as [Hc Hs].
  rewrite Hc, (IH Hs). reflexivity.
Qed.

Lemma Split_app (l r : string) (sep : ascii) :
  containsByte sep l = false ->
  strings_Split (l +:+ String sep r) sep = l :: strings_Split r sep.
Proof.
  induction l as [|c l IH]; intros H.
  - rewrite app_nil_string. simpl. now rewrite Ascii.eqb_refl.
  - simpl in H. apply orb_false_elim in H as [Hc Hl].
    rewrite app_String. simpl. rewrite Hc, (IH Hl). reflexivity.
Qed.

(** Exactly two parts: one separator. *)
Lemma Split_two (s : string) (sep : ascii) (l r : string) :
  strings_Split s sep = [l; r]
  <-> s = l +:+ String sep r
      /\ containsByte sep l = false /\ containsByte sep r = false.
Proof.
  split.
  - intros H. pose proof (Split_join s sep) as Hj.
    pose proof (Split_parts_clean s sep) as Hc. rewrite H in Hj, Hc.
    rewrite concat_cons2 in Hj. simpl in Hj.
    split; [now rewrite <- Hj|].
    inversion Hc as [|? ? Hl Hc']. inversion Hc' as [|? ? Hr _]. auto.
  - intros (-> & Hl & Hr). now rewrite (Split_app l r sep Hl), (Split_clean r sep Hr).
Qed.

(** ** [initAction] *)

Section InitActionFacts.

Variables CamelCase SnakeCase PascalCase : string.
Variable TransToValidCollectionFormat : string -> string.
Variable strings_TrimSpace : string -> string.

Abbreviation initAction' :=
  (main.initAction CamelCase SnakeCase PascalCase
     TransToValidCollectionFormat strings_TrimSpace).

Abbreviation Delimiters := (main.Delimiters strings_TrimSpace).
Abbreviation DefaultDelimiters := (main.DefaultDelimiters strings_TrimSpace).
Abbreviation GivenDelimiters := (main.GivenDelimiters strings_TrimSpace).
Abbreviation supported := (main.supported CamelCase SnakeCase PascalCase).

Lemma supported_spec (strategy : string) :
  (String.eqb strategy CamelCase || String.eqb strategy SnakeCase
   || String.eqb strategy PascalCase) = true <-> supported strategy.
Proof.
  unfold main.supported. rewrite !orb_true_iff, !String.eqb_eq. tauto.
Qed.

(** The five ways [initAction] ends, in the order of its checks. *)
Lemma initAction_cases (ctx : cli.Context) :
  (~ supported (cli.String ctx main.propertyStrategyFlag)
   /\ initAction' ctx
      = inl (main.NotSupportedStrategy
               (cli.String ctx main.propertyStrategyFlag)))
  \/ (supported (cli.String ctx main.propertyStrategyFlag)
      /\ ((cli.IsSet ctx main.templateDelimsFlag = true
           /\ List.length (strings_Split
                             (cli.String ctx main.templateDelimsFlag) ",")
              <> 2
           /\ initAction' ctx = inl main.DelimsNotTwo)
          \/ (cli.IsSet ctx main.templateDelimsFlag = true
              /\ (exists l, strings_Split
                              (cli.String ctx main.templateDelimsFlag) ","
                            = [l; l])
              /\ initAction' ctx = inl main.DelimsEqual)
          \/ (exists L R, Delimiters ctx L R
              /\ ((TransToValidCollectionFormat
                     (cli.String ctx main.collectionFormatFlag) = ""
                   /\ initAction' ctx
                      = inl (main.NotSupportedCollectionFormat
                               (cli.String ctx "")))
                  \/ (TransToValidCollectionFormat
                        (cli.String ctx main.collectionFormatFlag) <> ""
                      /\ exists cfg, initAction' ctx = inr cfg
                         /\ gen.LeftTemplateDelim cfg = L
                         /\ gen.RightTemplateDelim cfg = R
                         /\ gen.PropNamingStrategy cfg
                            = cli.String ctx main.propertyStrategyFlag
                         /\ gen.OutputTypes cfg
                            = strings_Split
                                (cli.String ctx main.outputTypesFlag) ","
                         /\ gen.CollectionFormat cfg
                            = TransToValidCollectionFormat
                                (cli.String ctx main.collectionFormatFlag)
                         /\ gen.ParseDependency cfg
                            = (if Z.eqb (cli.Int ctx
                                           main.parseDependencyLevelFlag) 0
                               then if cli.Bool ctx main.parseDependencyFlag
                                    then 1%Z else 0%Z
                               else cli.Int ctx
                                      main.parseDependencyLevelFlag)))))).
Proof.
  unfold main.initAction.
  destruct (String.eqb _ CamelCase || String.eqb _ SnakeCase
            || String.eqb _ PascalCase) eqn:Hs; simpl.
  2: { left. split; [|reflexivity]. rewrite <- supported_spec.
       now rewrite Hs. }
  right. split; [now apply supported_spec|].
  assert (Hrest : forall L R, Delimiters ctx L R ->
    exists L0 R0, Delimiters ctx L0 R0 /\ L0 = L /\ R0 = R) by eauto.
  pose proof (Split_nonempty (cli.String ctx main.outputTypesFlag) ",")
    as Hout.
  destruct (cli.IsSet ctx main.templateDelimsFlag) eqn:Hset.
  - destruct (strings_Split (cli.String ctx main.templateDelimsFlag) ",")
      as [|l [|r [|x t]]] eqn:Hsplit; simpl;
      try (left; split; [reflexivity|]; split; [simpl; lia | reflexivity]).
    destruct (String.eqb_spec l r) as [->|Hlr].
    + right; left. split; [reflexivity|]. split; [eauto | reflexivity].
    + right; right. exists (strings_TrimSpace l), (strings_TrimSpace r).
      split; [now apply (GivenDelimiters ctx l r)|].
      destruct (strings_Split (cli.String ctx main.outputTypesFlag) ",")
        as [|o os] eqn:Ho; [congruence|]. simpl.
      destruct (String.eqb_spec
                  (TransToValidCollectionFormat
                     (cli.String ctx main.collectionFormatFlag)) "")
        as [E|E].
      * left. split; [exact E|]. now rewrite E.
      * right. split; [exact E|]. eexists. split; [reflexivity|]. simpl.
        repeat split.
        destruct (Z.eqb _ 0) eqn:Hz; [|reflexivity].
        apply Z.eqb_eq in Hz. rewrite Hz.
        destruct (cli.Bool ctx main.parseDependencyFlag); reflexivity.
  - right; right. exists "{{", "}}".
    split; [now apply DefaultDelimiters|].
    destruct (strings_Split (cli.String ctx main.outputTypesFlag) ",")
      as [|o os] eqn:Ho; [congruence|]. simpl.
    destruct (String.eqb_spec
                (TransToValidCollectionFormat
                   (cli.String ctx main.collectionFormatFlag)) "")
      as [E|E].
    + left. split; [exact E|]. now rewrite E.
    + right. split; [exact E|]. eexists. split; [reflexivity|]. simpl.
      repeat split.
      destruct (Z.eqb _ 0) eqn:Hz; [|reflexivity].
      apply Z.eqb_eq in Hz. rewrite Hz.
      destruct (cli.Bool ctx main.parseDependencyFlag); reflexivity.
Qed.

(** What the delimiters check lets through, in terms of the flag. *)
Lemma Delimiters_iff (ctx : cli.Context) :
  (exists L R, Delimiters ctx L R)
  <-> cli.IsSet ctx main.templateDelimsFlag = false
      \/ (cli.IsSet ctx main.templateDelimsFlag = true
          /\ exists l r,
               cli.String ctx main.templateDelimsFlag = l +:+ "," +:+ r
               /\ containsByte "," l = false /\ containsByte "," r = false
               /\ l <> r).
Proof.
  split.
  - intros (L & R & [Hset|l r Hset Hsplit Hne]); [now left|].
    right. split; [exact Hset|]. exists l, r.
    apply Split_two in Hsplit. tauto.
  - intros [Hset|(Hset & l & r & Hv & Hl & Hr & Hne)].
    + eexists _, _. now apply DefaultDelimiters.
    + eexists _, _. apply (GivenDelimiters ctx l r); auto.
      apply Split_two. auto.
Qed.

Ltac init_cases ctx :=
  destruct (initAction_cases ctx)
    as [[Hns E]
       |[Hs [(Hset & Hlen & E)
            |[(Hset & [l0 Hsplit] & E)
             |(L & R & HD & [[Hcf E]
                            |(Hcf & cfg0 & E & HL & HR & HP & HO & HC
                              & HPD)])]]]].

(** X8: [initAction] never reports that no output types were specified:
    [strings.Split] always yields at least one part.  The output types of
    an accepted command line hold no comma and, joined with commas, give
    the flag back. *)
Theorem initAction_output_types (ctx : cli.Context) :
  initAction' ctx <> inl main.NoOutputTypes
  /\ forall cfg, initAction' ctx = inr cfg ->
       gen.OutputTypes cfg <> []
       /\ String.concat "," (gen.OutputTypes cfg)
          = cli.String ctx main.outputTypesFlag
       /\ Forall (fun part => containsByte "," part = false)
                 (gen.OutputTypes cfg).
Proof.
  init_cases ctx; rewrite E; (split; [discriminate|]);
    intros cfg H; try discriminate.
  injection H as <-. rewrite HO.
  split; [apply Split_nonempty|].
  split; [apply Split_join | apply Split_parts_clean].
Qed.

(** X9: the strategy is checked first: [initAction] reports an
    unsupported strategy exactly when the flag is none of the three
    names, whatever the other flags are, and the strategy it reports is
    the flag. *)
Theorem initAction_strategy (ctx : cli.Context) (strategy : string) :
  initAction' ctx = inl (main.NotSupportedStrategy strategy)
  <-> strategy = cli.String ctx main.propertyStrategyFlag
      /\ strategy <> CamelCase /\ strategy <> SnakeCase
      /\ strategy <> PascalCase.
Proof.
  init_cases ctx; rewrite E; split; try discriminate.
  - intros H. injection H as <-. unfold main.supported in Hns. tauto.
  - intros [-> _]. reflexivity.
  - intros (-> & H1 & H2 & H3). destruct Hs as [H|[H|H]]; contradiction.
  - intros (-> & H1 & H2 & H3). destruct Hs as [H|[H|H]]; contradiction.
  - intros (-> & H1 & H2 & H3). destruct Hs as [H|[H|H]]; contradiction.
  - intros (-> & H1 & H2 & H3). destruct Hs as [H|[H|H]]; contradiction.
Qed.

(** X10: the template delimiters of an accepted command line: the pair
    of double braces when the flag is not given; otherwise the flag is
    [l,r] with one comma and [l] different from [r], and the delimiters
    are [l] and [r] trimmed. *)
Theorem initAction_delimiters (ctx : cli.Context) (cfg : gen.Config) :
  initAction' ctx = inr cfg ->
  (cli.IsSet ctx main.templateDelimsFlag = false ->
   gen.LeftTemplateDelim cfg = "{{" /\ gen.RightTemplateDelim cfg = "}}")
  /\ (cli.IsSet ctx main.templateDelimsFlag = true ->
      exists l r,
        cli.String ctx main.templateDelimsFlag = l +:+ "," +:+ r
        /\ containsByte "," l = false /\ containsByte "," r = false
        /\ l <> r
        /\ gen.LeftTemplateDelim cfg = strings_TrimSpace l
        /\ gen.RightTemplateDelim cfg = strings_TrimSpace r).
Proof.
  init_cases ctx; rewrite E; intros H; try discriminate.
  injection H as <-. rewrite HL, HR.
  destruct HD as [Hset|l r Hset Hsplit Hne]; split; intros Hset';
    try congruence; auto.
  exists l, r. apply Split_two in Hsplit. tauto.
Qed.

(** X11: the two errors of the delimiters check.  With a supported
    strategy and the flag given, [initAction] asks for exactly two
    delimiters exactly when the flag does not hold exactly one comma, and
    asks for different delimiters exactly when the flag is [l,l]. *)
Theorem initAction_delimiter_errors (ctx : cli.Context) :
  (initAction' ctx = inl main.DelimsNotTwo
   <-> supported (cli.String ctx main.propertyStrategyFlag)
       /\ cli.IsSet ctx main.templateDelimsFlag = true
       /\ ~ exists l r,
              cli.String ctx main.templateDelimsFlag = l +:+ "," +:+ r
              /\ containsByte "," l = false /\ containsByte "," r = false)
  /\ (initAction' ctx = inl main.DelimsEqual
      <-> supported (cli.String ctx main.propertyStrategyFlag)
          /\ cli.IsSet ctx main.templateDelimsFlag = true
          /\ exists l,
               cli.String ctx main.templateDelimsFlag = l +:+ "," +:+ l
               /\ containsByte "," l = false).
Proof.
  assert (Htwo : forall l r,
            strings_Split (cli.String ctx main.templateDelimsFlag) ","
            = [l; r] ->
            cli.String ctx main.templateDelimsFlag = l +:+ "," +:+ r
            /\ containsByte "," l = false /\ containsByte "," r = false)
    by (intros l r H; now apply Split_two in H).
  assert (Hback : forall l r,
            cli.String ctx main.templateDelimsFlag = l +:+ "," +:+ r ->
            containsByte "," l = false -> containsByte "," r = false ->
            strings_Split (cli.String ctx main.templateDelimsFlag) ","
            = [l; r])
    by (intros l r H Hl Hr; apply Split_two; auto).
  init_cases ctx; rewrite E; split; split; try discriminate;
    try (intros (Hs' & _); contradiction); try (intros _; reflexivity).
  - intros _. split; [exact Hs|]. split; [exact Hset|].
    intros (l & r & Hv & Hl & Hr). rewrite (Hback l r Hv Hl Hr) in Hlen.
    simpl in Hlen. lia.
  - intros (_ & _ & l & Hv & Hl). rewrite (Hback l l Hv Hl Hl) in Hlen.
    simpl in Hlen. lia.
  - intros (_ & _ & Hno). exfalso. apply Hno. exists l0, l0.
    now apply Htwo.
  - intros _. split; [exact Hs|]. split; [exact Hset|].
    exists l0. destruct (Htwo l0 l0 Hsplit) as (Hv & Hl & _). auto.
  - intros (_ & Hset & Hno). exfalso.
    destruct HD as [Hset'|l r _ Hsplit _]; [congruence|].
    apply Hno. exists l, r. now apply Htwo.
  - intros (_ & Hset & l & Hv & Hl). exfalso.
    destruct HD as [Hset'|l' r' _ Hsplit Hne]; [congruence|].
    rewrite (Hback l l Hv Hl Hl) in Hsplit. congruence.
  - intros (_ & Hset & Hno). exfalso.
    destruct HD as [Hset'|l r _ Hsplit _]; [congruence|].
    apply Hno. exists l, r. now apply Htwo.
  - intros (_ & Hset & l & Hv & Hl). exfalso.
    destruct HD as [Hset'|l' r' _ Hsplit Hne]; [congruence|].
    rewrite (Hback l l Hv Hl Hl) in Hsplit. congruence.
Qed.

(** X12: the delimiters are compared before they are trimmed: two parts
    that differ and trim to the same string are accepted, and the left
    and the right delimiter of the configuration are then equal. *)
Theorem initAction_delimiters_compared_untrimmed (ctx : cli.Context)
    (l r : string) :
  supported (cli.String ctx main.propertyStrategyFlag) ->
  cli.IsSet ctx main.templateDelimsFlag = true ->
  cli.String ctx main.templateDelimsFlag = l +:+ "," +:+ r ->
  containsByte "," l = false -> containsByte "," r = false ->
  l <> r -> strings_TrimSpace l = strings_TrimSpace r ->
  TransToValidCollectionFormat (cli.String ctx main.collectionFormatFlag)
  <> "" ->
  exists cfg, initAction' ctx = inr cfg
    /\ gen.LeftTemplateDelim cfg = strings_TrimSpace l
    /\ gen.RightTemplateDelim cfg = gen.LeftTemplateDelim cfg.
Proof.
  intros Hsup Hgiven Hv Hl Hr Hne Htrim Hfmt.
  assert (Hsp : strings_Split (cli.String ctx main.templateDelimsFlag) ","
                = [l; r]) by (apply Split_two; auto).
  init_cases ctx; try contradiction.
  - rewrite Hsp in Hlen. simpl in Hlen. lia.
  - rewrite Hsp in Hsplit. congruence.
  - exists cfg0. split; [exact E|]. rewrite HL, HR.
    destruct HD as [Hset'|l' r' _ Hsplit _]; [congruence|].
    rewrite Hsp in Hsplit. injection Hsplit as <- <-. auto.
Qed.

(** X13: [initAction] rejects the collection format exactly when the
    strategy and the delimiters pass and the normalized format is empty;
    the value it shows in the error is that of the flag named by the
    empty string, not that of the collection format flag. *)
Theorem initAction_collection_format_error (ctx : cli.Context)
    (shown : string) :
  initAction' ctx = inl (main.NotSupportedCollectionFormat shown)
  <-> supported (cli.String ctx main.propertyStrategyFlag)
      /\ (exists L R, Delimiters ctx L R)
      /\ TransToValidCollectionFormat
           (cli.String ctx main.collectionFormatFlag) = ""
      /\ shown = cli.String ctx "".
Proof.
  init_cases ctx; rewrite E; split; try discriminate;
    try (intros (Hs' & _); contradiction).
  - intros (_ & (L & R & HD) & _).
    destruct HD as [Hset'|l r _ Hsplit _]; [congruence|].
    rewrite Hsplit in Hlen. simpl in Hlen. lia.
  - intros (_ & (L & R & HD) & _).
    destruct HD as [Hset'|l r _ Hsp' Hne]; [congruence|].
    rewrite Hsp' in Hsplit. congruence.
  - intros H. injection H as <-. eauto 10.
  - intros (_ & _ & _ & ->). reflexivity.
  - intros (_ & _ & Hcf' & _). contradiction.
Qed.

(** X14: [initAction] reaches the build exactly when the strategy is one
    of the three names, the delimiters flag is absent or holds two
    different parts around one comma, and the collection format has a
    normal form. *)
Theorem initAction_accepts_iff (ctx : cli.Context) :
  (exists cfg, initAction' ctx = inr cfg)
  <-> supported (cli.String ctx main.propertyStrategyFlag)
      /\ (cli.IsSet ctx main.templateDelimsFlag = false
          \/ (cli.IsSet ctx main.templateDelimsFlag = true
              /\ exists l r,
                   cli.String ctx main.templateDelimsFlag = l +:+ "," +:+ r
                   /\ containsByte "," l = false
                   /\ containsByte "," r = false /\ l <> r))
      /\ TransToValidCollectionFormat
           (cli.String ctx main.collectionFormatFlag) <> "".
Proof.
  rewrite <- Delimiters_iff.
  init_cases ctx; rewrite E; split;
    try (intros [cfg H]; discriminate);
    try (intros (Hs' & _); contradiction).
  - intros (_ & (L & R & HD) & _).
    destruct HD as [Hset'|l r _ Hsplit _]; [congruence|].
    rewrite Hsplit in Hlen. simpl in Hlen. lia.
  - intros (_ & (L & R & HD) & _).
    destruct HD as [Hset'|l r _ Hsp' Hne]; [congruence|].
    rewrite Hsp' in Hsplit. congruence.
  - intros (_ & _ & Hcf'). contradiction.
  - intros _. eauto 10.
  - intros _. eauto.
Qed.

(** X15: the configuration of an accepted command line: its strategy is
    one of the three names, its collection format is the normal form of
    the flag and is not empty, and its dependency level is the level flag
    when that is not zero, else one when the dependency flag is set, so it
    is zero only when neither is given. *)
Theorem initAction_config (ctx : cli.Context) (cfg : gen.Config) :
  initAction' ctx = inr cfg ->
  supported (gen.PropNamingStrategy cfg)
  /\ gen.CollectionFormat cfg
     = TransToValidCollectionFormat
         (cli.String ctx main.collectionFormatFlag)
  /\ gen.CollectionFormat cfg <> ""
  /\ (cli.Int ctx main.parseDependencyLevelFlag <> 0%Z ->
      gen.ParseDependency cfg = cli.Int ctx main.parseDependencyLevelFlag)
  /\ (cli.Int ctx main.parseDependencyLevelFlag = 0%Z ->
      gen.ParseDependency cfg
      = if cli.Bool ctx main.parseDependencyFlag then 1%Z else 0%Z)
  /\ (gen.ParseDependency cfg = 0%Z
      <-> cli.Int ctx main.parseDependencyLevelFlag = 0%Z
          /\ cli.Bool ctx main.parseDependencyFlag = false).
Proof.
  init_cases ctx; rewrite E; intros H; try discriminate.
  injection H as <-. rewrite HP, HC, HPD.
  split; [exact Hs|]. split; [reflexivity|]. split; [exact Hcf|].
  destruct (Z.eqb_spec (cli.Int ctx main.parseDependencyLevelFlag) 0)
    as [Hz|Hz].
  - split; [intros; contradiction|]. split; [reflexivity|].
    destruct (cli.Bool ctx main.parseDependencyFlag); split;
      try discriminate; try tauto. intros [_ H]. discriminate.
  - split; [reflexivity|]. split; [intros; contradiction|]. tauto.
Qed.

End InitActionFacts.

(** ** The command line, on examples *)

(** The default command line reaches the build. *)
Example defaults_accepted :
  match MainFixtures.initAction MainFixtures.plainRun with
  | inr cfg =>
      gen.OutputTypes cfg = ["go"; "json"; "yaml"]
      /\ gen.LeftTemplateDelim cfg = "{{" /\ gen.RightTemplateDelim cfg = "}}"
      /\ gen.CollectionFormat cfg = "csv" /\ gen.ParseDependency cfg = 0%Z
  | inl _ => False
  end.
Proof. vm_compute. repeat split. Qed.

(** The rejected collection format does not appear in the error. *)
Example xml_rejected :
  (main.InitError_Error <$>
     match MainFixtures.initAction MainFixtures.xmlRun with
     | inl e => Some e
     | inr _ => None
     end)
  = Some "not supported  collectionFormat".
Proof. vm_compute. reflexivity. Qed.

Lemma initAction_delimiters_witness :
  match MainFixtures.initAction MainFixtures.bracketRun with
  | inr cfg =>
      exists l r,
        "[[,]]" = l +:+ "," +:+ r
        /\ containsByte "," l = false /\ containsByte "," r = false
        /\ l <> r
        /\ gen.LeftTemplateDelim cfg = MainFixtures.trimBlanks l
        /\ gen.RightTemplateDelim cfg = MainFixtures.trimBlanks r
  | inl _ => False
  end.
Proof.
  destruct (MainFixtures.initAction MainFixtures.bracketRun) as [e|cfg] eqn:E.
  - vm_compute in E. discriminate E.
  - exact (proj2 (initAction_delimiters "camelcase" "snakecase" "pascalcase"
                    MainFixtures.keepKnownFormat MainFixtures.trimBlanks
                    MainFixtures.bracketRun cfg E) eq_refl).
Defined.

Lemma initAction_delimiters_compared_untrimmed_witness :
  exists cfg,
    MainFixtures.initAction MainFixtures.blankRun = inr cfg
    /\ gen.LeftTemplateDelim cfg = "[["
    /\ gen.RightTemplateDelim cfg = gen.LeftTemplateDelim cfg.
Proof.
  apply (initAction_delimiters_compared_untrimmed "camelcase" "snakecase"
           "pascalcase" MainFixtures.keepKnownFormat MainFixtures.trimBlanks
           MainFixtures.blankRun "[[ " "[[").
  - left. reflexivity.
  - reflexivity.
  - reflexivity.
  - reflexivity.
  - reflexivity.
  - discriminate.
  - reflexivity.
  - discriminate.
Defined.

Lemma initAction_config_witness :
  match MainFixtures.initAction MainFixtures.plainRun with
  | inr cfg =>
      gen.CollectionFormat cfg <> ""
      /\ (gen.ParseDependency cfg = 0%Z
          <-> cli.Int MainFixtures.plainRun main.parseDependencyLevelFlag
              = 0%Z
              /\ cli.Bool MainFixtures.plainRun main.parseDependencyFlag
                 = false)
  | inl _ => False
  end.
Proof.
  destruct (MainFixtures.initAction MainFixtures.plainRun) as [e|cfg] eqn:E.
  - vm_compute in E. discriminate E.
  - destruct (initAction_config "camelcase" "snakecase" "pascalcase"
                MainFixtures.keepKnownFormat MainFixtures.trimBlanks
                MainFixtures.plainRun cfg E) as (_ & _ & H3 & _ & _ & H6).
    split; [exact H3 | exact H6].
Defined.
